(** * The task aggregator of jai-nexus/.github ([.codex/aggregate_tasks.mjs])

    A shallow embedding of the script that fetches open issues and pull
    requests from the code-hosting search API and pages from an optional
    workspace database, normalises both into one task record, computes the
    totals and hands the payload to the file writer.

    Conventions of the embedding.
    - JavaScript strings are [string]s (byte strings, UTF-8).  [toLowerCase],
      [trim] and the regular-expression class [\s] act on ASCII; on ASCII text
      they agree with the JavaScript built-ins.
    - JavaScript numbers are [num]: exact rationals extended with NaN and the
      two infinities.  [parseInt] rounds the integer it reads to the nearest
      binary64 number, with Infinity on overflow; comparison, [Math.max],
      [Math.min], division by 100 and sums are computed exactly.
    - The two HTTP clients are functions from a request to either an error
      message or a decoded response; the clock is a string.  Responses are
      typed by the documented shape of the two APIs; what [prop] extracts from
      a page is a dynamically typed [value], as in the script.
    - The [while (true)] loop of the workspace-database fetcher takes fuel,
      a bound on the number of requests.  Creating the output directory and
      writing the file are not modelled: a run ends with the payload that is
      serialised. *)

From Stdlib Require Import String Ascii List ZArith QArith Qminmax Lia Lqa Bool.
From Stdlib Require Import DecimalString.
From stdpp Require Import base option gmap strings.
Import ListNotations.

Local Open Scope string_scope.
Local Open Scope list_scope.

(** ** Strings *)

Module Str.

Definition chars (s : string) : list ascii := list_ascii_of_string s.
Definition of_chars (l : list ascii) : string := string_of_list_ascii l.

Definition is_upper (c : ascii) : bool :=
  let n := nat_of_ascii c in (65 <=? n)%nat && (n <=? 90)%nat.
Definition is_lower (c : ascii) : bool :=
  let n := nat_of_ascii c in (97 <=? n)%nat && (n <=? 122)%nat.
Definition is_digit (c : ascii) : bool :=
  let n := nat_of_ascii c in (48 <=? n)%nat && (n <=? 57)%nat.
(** [\w] of a regular expression without the unicode flag: [A-Za-z0-9_]. *)
Definition is_word (c : ascii) : bool :=
  is_upper c || is_lower c || is_digit c || Ascii.eqb c "_".
(** White space: TAB, LF, VT, FF, CR and SPACE. *)
Definition is_space (c : ascii) : bool :=
  let n := nat_of_ascii c in ((9 <=? n)%nat && (n <=? 13)%nat) || (n =? 32)%nat.

Definition lower_char (c : ascii) : ascii :=
  if is_upper c then ascii_of_nat (nat_of_ascii c + 32) else c.

Fixpoint toLowerCase (s : string) : string :=
  match s with
  | EmptyString => EmptyString
  | String c s' => String (lower_char c) (toLowerCase s')
  end.

Fixpoint trimStart (l : list ascii) : list ascii :=
  match l with
  | c :: l' => if is_space c then trimStart l' else l
  | [] => []
  end.

Definition trim (s : string) : string :=
  of_chars (rev (trimStart (rev (trimStart (chars s))))).

(** [s.split(sep)] for a one-character separator: never empty. *)
Fixpoint split_chars (sep : ascii) (cur : list ascii) (l : list ascii) : list string :=
  match l with
  | [] => [of_chars (rev cur)]
  | c :: l' =>
      if Ascii.eqb c sep then of_chars (rev cur) :: split_chars sep [] l'
      else split_chars sep (c :: cur) l'
  end.

Definition split (sep : ascii) (s : string) : list string :=
  split_chars sep [] (chars s).

(** [parts.join(sep)]. *)
Fixpoint join (sep : string) (parts : list string) : string :=
  match parts with
  | [] => ""
  | [p] => p
  | p :: ps => p ++ sep ++ join sep ps
  end.

Definition nonempty (s : string) : bool :=
  match s with EmptyString => false | _ => true end.

(** Decimal digits to the integer they denote. *)
Definition digit_val (c : ascii) : Z := Z.of_nat (nat_of_ascii c) - 48.

Definition digits_val (ds : list ascii) : Z :=
  fold_left (fun acc c => 10 * acc + digit_val c)%Z ds 0%Z.

Definition of_Z (z : Z) : string := NilZero.string_of_int (Z.to_int z).

End Str.

(** ** Regular expressions

  A backtracking matcher with the priorities of the JavaScript engine:
  the leftmost start position wins, quantifiers are greedy, alternatives
  are tried left to right.  Repetition is over a character class, which is
  all the script uses; there is one capture group. *)

Module Re.

Inductive regex : Type :=
| Eps
| Chr (c : ascii)
| Cls (p : ascii -> bool)
| Seq (r1 r2 : regex)
| Alt (r1 r2 : regex)
| Opt (r : regex)
| Star (p : ascii -> bool)
| Plus (p : ascii -> bool)
| WordB
| Group (r : regex).

Fixpoint lit_chars (l : list ascii) : regex :=
  match l with
  | [] => Eps
  | [c] => Chr c
  | c :: l' => Seq (Chr c) (lit_chars l')
  end.

Definition lit (s : string) : regex := lit_chars (Str.chars s).

Fixpoint seq (rs : list regex) : regex :=
  match rs with
  | [] => Eps
  | [r] => r
  | r :: rs' => Seq r (seq rs')
  end.

Fixpoint alt (rs : list regex) : regex :=
  match rs with
  | [] => Cls (fun _ => false)
  | [r] => r
  | r :: rs' => Alt r (alt rs')
  end.

Definition is_word_opt (c : option ascii) : bool :=
  match c with Some c => Str.is_word c | None => false end.

Definition orelse {A} (x : option A) (y : unit -> option A) : option A :=
  match x with Some _ => x | None => y tt end.

Section Matcher.
Context {R : Type}.

(** The continuation receives the last character consumed so far (for
    [\b]), the rest of the input and the capture. *)
Definition cont : Type := option ascii -> list ascii -> option (list ascii) -> option R.

Fixpoint star (p : ascii -> bool) (k : option ascii -> list ascii -> option R)
    (prev : option ascii) (s : list ascii) : option R :=
  match s with
  | c :: s' =>
      if p c then orelse (star p k (Some c) s') (fun _ => k prev s)
      else k prev s
  | [] => k prev s
  end.

Fixpoint run (r : regex) (prev : option ascii) (s : list ascii)
    (cap : option (list ascii)) (k : cont) : option R :=
  match r with
  | Eps => k prev s cap
  | Chr c =>
      match s with
      | x :: s' => if Ascii.eqb x c then k (Some x) s' cap else None
      | [] => None
      end
  | Cls p =>
      match s with
      | x :: s' => if p x then k (Some x) s' cap else None
      | [] => None
      end
  | Seq r1 r2 => run r1 prev s cap (fun prev' s' cap' => run r2 prev' s' cap' k)
  | Alt r1 r2 => orelse (run r1 prev s cap k) (fun _ => run r2 prev s cap k)
  | Opt r1 => orelse (run r1 prev s cap k) (fun _ => k prev s cap)
  | Star p => star p (fun prev' s' => k prev' s' cap) prev s
  | Plus p =>
      match s with
      | x :: s' => if p x then star p (fun prev' s' => k prev' s' cap) (Some x) s' else None
      | [] => None
      end
  | WordB =>
      if xorb (is_word_opt prev) (is_word_opt (head s)) then k prev s cap else None
  | Group r1 =>
      run r1 prev s cap
        (fun prev' s' _ => k prev' s' (Some (firstn (length s - length s') s)))
  end.
End Matcher.

(** [s.match(r)] without the global flag: the capture of the leftmost
    match, [None] when nothing matches. *)
Fixpoint search (r : regex) (prev : option ascii) (s : list ascii)
    : option (option (list ascii)) :=
  orelse (run r prev s None (fun _ _ cap => Some cap))
    (fun _ => match s with
              | [] => None
              | c :: s' => search r (Some c) s'
              end).

Definition exec (r : regex) (s : string) : option (option (list ascii)) :=
  search r None (Str.chars s).

Definition test (r : regex) (s : string) : bool :=
  match exec r s with Some _ => true | None => false end.

End Re.

(** ** Numbers *)

Module Num.

Inductive num : Type :=
| NaN
| PInf
| NInf
| Fin (q : Q).

Definition of_Z (z : Z) : num := Fin (inject_Z z).
Definition of_nat (n : nat) : num := of_Z (Z.of_nat n).

Definition zero : num := of_Z 0.
Definition one : num := of_Z 1.
Definition hundred : num := of_Z 100.

(** The order of IEEE numbers: nothing compares with NaN. *)
Definition cmp (a b : num) : option comparison :=
  match a, b with
  | NaN, _ | _, NaN => None
  | Fin x, Fin y => Some (x ?= y)%Q
  | PInf, PInf | NInf, NInf => Some Eq
  | PInf, _ | _, NInf => Some Gt
  | _, PInf | NInf, _ => Some Lt
  end.

Definition ltb (a b : num) : bool :=
  match cmp a b with Some Lt => true | _ => false end.
Definition leb (a b : num) : bool :=
  match cmp a b with Some Lt | Some Eq => true | _ => false end.
Definition eqb (a b : num) : bool :=
  match cmp a b with Some Eq => true | _ => false end.
(** [a > b] is evaluated as [b < a]. *)
Definition gtb (a b : num) : bool := ltb b a.

Definition is_nan (a : num) : bool :=
  match a with NaN => true | _ => false end.

(** [Math.max(a, b)] and [Math.min(a, b)]: NaN when an argument is NaN. *)
Definition max (a b : num) : num :=
  if is_nan a || is_nan b then NaN else if ltb a b then b else a.
Definition min (a b : num) : num :=
  if is_nan a || is_nan b then NaN else if ltb b a then b else a.

Definition add (a b : num) : num :=
  match a, b with
  | NaN, _ | _, NaN => NaN
  | PInf, NInf | NInf, PInf => NaN
  | PInf, _ | _, PInf => PInf
  | NInf, _ | _, NInf => NInf
  | Fin x, Fin y => Fin (x + y)
  end.

Definition sign (q : Q) : comparison := (q ?= 0)%Q.

Definition div (a b : num) : num :=
  match a, b with
  | NaN, _ | _, NaN => NaN
  | Fin x, Fin y =>
      match sign y with
      | Eq => match sign x with Eq => NaN | Gt => PInf | Lt => NInf end
      | _ => Fin (x / y)
      end
  | Fin _, _ => zero
  | PInf, Fin y => match sign y with Lt => NInf | _ => PInf end
  | NInf, Fin y => match sign y with Lt => PInf | _ => NInf end
  | _, _ => NaN
  end.

(** ToBoolean on a number: 0 and NaN are falsy. *)
Definition truthy (a : num) : bool :=
  match a with
  | NaN => false
  | Fin q => negb (Qeq_bool q 0)
  | _ => true
  end.

(** m * 10^e. *)
Definition scale10 (m e : Z) : Q :=
  if (0 <=? e)%Z then inject_Z (m * 10 ^ e) else Qmake m (Z.to_pos (10 ^ (- e))).

(** *** Number to string ([Number::toString], radix 10)

    The digits are those of the exact decimal expansion.  Every number the
    script handles is a decimal (a JSON literal, a length, a quotient by
    100, a sum), so the expansion terminates; for any other rational the
    expansion is cut after [Pos.size_nat] of the denominator digits. *)

Fixpoint frac_places (fuel : nat) (f : nat) (b : positive) : nat :=
  match fuel with
  | O => f
  | S fuel' =>
      if (Z.rem (10 ^ Z.of_nat f) (Zpos b) =? 0)%Z then f
      else frac_places fuel' (S f) b
  end.

Fixpoint strip_zeros (rev_ds : list ascii) : list ascii * nat :=
  match rev_ds with
  | c :: l' =>
      if Ascii.eqb c "0" then let '(l'', z) := strip_zeros l' in (l'', S z)
      else (rev_ds, O)
  | [] => ([], O)
  end.

Definition zeros (n : nat) : list ascii := repeat "0"%char n.

Definition format_digits (ds : list ascii) (n : Z) : list ascii :=
  let k := Z.of_nat (length ds) in
  if ((k <=? n) && (n <=? 21))%Z then ds ++ zeros (Z.to_nat (n - k))
  else if ((0 <? n) && (n <=? 21))%Z then
    firstn (Z.to_nat n) ds ++ "."%char :: skipn (Z.to_nat n) ds
  else if ((-6 <? n) && (n <=? 0))%Z then
    "0"%char :: "."%char :: zeros (Z.to_nat (- n)) ++ ds
  else
    let e := (n - 1)%Z in
    let mant := match ds with
                | [d] => [d]
                | d :: rest => d :: "."%char :: rest
                | [] => []
                end in
    mant ++ "e"%char :: (if (0 <=? e)%Z then "+"%char else "-"%char)
         :: Str.chars (Str.of_Z (Z.abs e)).

Definition pos_toString (q : Q) : list ascii :=
  let r := Qred q in
  let a := Qnum r in
  let b := Qden r in
  let f := frac_places (Pos.size_nat b) 0 b in
  let S := (a * 10 ^ Z.of_nat f / Zpos b)%Z in
  let '(rds, z) := strip_zeros (rev (Str.chars (Str.of_Z S))) in
  format_digits (rev rds) (Z.of_nat (length rds) + Z.of_nat z - Z.of_nat f).

Definition toString (a : num) : string :=
  match a with
  | NaN => "NaN"
  | PInf => "Infinity"
  | NInf => "-Infinity"
  | Fin q =>
      match sign q with
      | Eq => "0"
      | Gt => Str.of_chars (pos_toString q)
      | Lt => Str.of_chars ("-"%char :: pos_toString (- q))
      end
  end.

(** *** String to number ([StringToNumber]) *)

Fixpoint span (p : ascii -> bool) (l : list ascii) : list ascii * list ascii :=
  match l with
  | c :: l' => if p c then let '(a, b) := span p l' in (c :: a, b) else ([], l)
  | [] => ([], [])
  end.

Definition is_nil {A} (l : list A) : bool :=
  match l with [] => true | _ => false end.

Definition is_e (c : ascii) : bool := Ascii.eqb c "e" || Ascii.eqb c "E".

(** The exponent part, which must reach the end of the input. *)
Definition parse_exp (l : list ascii) : option Z :=
  match l with
  | [] => Some 0%Z
  | c :: l' =>
      if is_e c then
        let '(neg, l'') :=
          match l' with
          | "-"%char :: t => (true, t)
          | "+"%char :: t => (false, t)
          | _ => (false, l')
          end in
        let '(ds, rest) := span Str.is_digit l'' in
        if is_nil ds || negb (is_nil rest) then None
        else Some (if neg then - Str.digits_val ds else Str.digits_val ds)%Z
      else None
  end.

Definition parse_decimal (l : list ascii) : option num :=
  if String.eqb (Str.of_chars l) "Infinity" then Some PInf else
  let '(ip, r1) := span Str.is_digit l in
  match r1 with
  | "."%char :: r2 =>
      let '(fp, r3) := span Str.is_digit r2 in
      if is_nil ip && is_nil fp then None
      else match parse_exp r3 with
           | Some e => Some (Fin (scale10 (Str.digits_val (ip ++ fp)) (e - Z.of_nat (length fp))))
           | None => None
           end
  | _ =>
      if is_nil ip then None
      else match parse_exp r1 with
           | Some e => Some (Fin (scale10 (Str.digits_val ip) e))
           | None => None
           end
  end.

Definition neg (a : num) : num :=
  match a with
  | NaN => NaN
  | PInf => NInf
  | NInf => PInf
  | Fin q => Fin (- q)
  end.

(** *** Integers as binary64 numbers

    The number nearest to an integer: 53 significant bits, a tie goes to
    the even significand, and what rounds to 2^1024 or more is Infinity.
    Integers up to 2^53 are kept as they are. *)
Definition round64_pos (z : Z) : num :=
  let k := (Z.log2 z - 52)%Z in
  if (k <=? 0)%Z then of_Z z
  else
    let q := (z / 2 ^ k)%Z in
    let r := (z mod 2 ^ k)%Z in
    let half := (2 ^ (k - 1))%Z in
    let m := (if r <? half then q
              else if half <? r then q + 1
              else if Z.even q then q else q + 1)%Z in
    if (2 ^ 1024 <=? m * 2 ^ k)%Z then PInf else of_Z (m * 2 ^ k).

Definition round64 (z : Z) : num :=
  if (z <? 0)%Z then neg (round64_pos (- z)) else round64_pos z.

Definition radix_digit (c : ascii) : option Z :=
  let n := Z.of_nat (nat_of_ascii c) in
  if Str.is_digit c then Some (n - 48)%Z
  else if ((97 <=? n) && (n <=? 102))%Z then Some (n - 87)%Z
  else if ((65 <=? n) && (n <=? 70))%Z then Some (n - 55)%Z
  else None.

Fixpoint parse_radix (radix : Z) (acc : Z) (l : list ascii) : option Z :=
  match l with
  | [] => Some acc
  | c :: l' =>
      match radix_digit c with
      | Some d => if (d <? radix)%Z then parse_radix radix (radix * acc + d)%Z l' else None
      | None => None
      end
  end.

Definition radix_of (c : ascii) : option Z :=
  if Ascii.eqb c "x" || Ascii.eqb c "X" then Some 16%Z
  else if Ascii.eqb c "o" || Ascii.eqb c "O" then Some 8%Z
  else if Ascii.eqb c "b" || Ascii.eqb c "B" then Some 2%Z
  else None.

Definition parse_literal (l : list ascii) : option num :=
  match l with
  | "-"%char :: t => option_map neg (parse_decimal t)
  | "+"%char :: t => parse_decimal t
  | "0"%char :: c :: d :: t =>
      match radix_of c with
      | Some r => option_map of_Z (parse_radix r 0 (d :: t))
      | None => parse_decimal l
      end
  | _ => parse_decimal l
  end.

Definition ofString (s : string) : num :=
  match Str.chars (Str.trim s) with
  | [] => zero
  | l => match parse_literal l with Some n => n | None => NaN end
  end.

End Num.

Abbreviation num := Num.num.

(** ** Dynamically typed values

    What [prop] returns and what the task fields hold: [undefined], a
    boolean, a number, a string or an array of strings. *)

Inductive value : Type :=
| VUndef
| VBool (b : bool)
| VNum (n : num)
| VStr (s : string)
| VArr (l : list string).

Module Js.

(** ToBoolean. *)
Definition truthy (v : value) : bool :=
  match v with
  | VUndef => false
  | VBool b => b
  | VNum n => Num.truthy n
  | VStr s => Str.nonempty s
  | VArr _ => true
  end.

(** [a || b] *)
Definition or (a b : value) : value := if truthy a then a else b.

(** [v.toString()] and [String(v)] on the values that reach them (an array
    prints its elements joined by commas). *)
Definition toString (v : value) : string :=
  match v with
  | VUndef => "undefined"
  | VBool b => if b then "true" else "false"
  | VNum n => Num.toString n
  | VStr s => s
  | VArr l => Str.join "," l
  end.

(** ToNumber. *)
Definition toNumber (v : value) : num :=
  match v with
  | VUndef => Num.NaN
  | VBool b => if b then Num.one else Num.zero
  | VNum n => n
  | VStr s => Num.ofString s
  | VArr l => Num.ofString (Str.join "," l)
  end.

(** [parseInt(s, 10)]: leading white space, a sign, then the longest run of
    digits, as a binary64 number; NaN when there is no digit. *)
Definition parseInt (l : list ascii) : num :=
  let l1 := Str.trimStart l in
  let '(negative, l2) :=
    match l1 with
    | "-"%char :: t => (true, t)
    | "+"%char :: t => (false, t)
    | _ => (false, l1)
    end in
  let '(ds, _) := Num.span Str.is_digit l2 in
  if Num.is_nil ds then Num.NaN
  else Num.round64 (if negative then - Str.digits_val ds else Str.digits_val ds).

(** [m[1]] of a match: the capture, [undefined] when the group took no part. *)
Definition parseInt_capture (cap : option (list ascii)) : num :=
  match cap with
  | Some ds => parseInt ds
  | None => parseInt (Str.chars "undefined")
  end.

End Js.

(** ** The task record *)

Module Task.

Record t : Type := mk {
  source : string;
  type : string;
  repo : option string;
  number : value;
  title : value;
  url : value;
  points : num;
  tags : list string;
  status : string;
  progress : num
}.

End Task.

Abbreviation Task := Task.t.

(** ** Code-hosting source *)

(** A label is a string or an object with an optional [name]. *)
Inductive Label : Type :=
| LabelStr (s : string)
| LabelObj (name : option string).

(** [typeof l === "string" ? l : l.name || ""] *)
Definition label_name (l : Label) : string :=
  match l with
  | LabelStr s => s
  | LabelObj (Some n) => n
  | LabelObj None => ""
  end.

Module Item.

(** One element of [data.items] of the search response. *)
Record t : Type := mk {
  repository_url : string;
  labels : option (list Label);
  pull_request : bool;      (* is the [pull_request] member present *)
  state : string;
  number : value;
  title : string;
  html_url : string
}.

End Item.

Definition sep_class (c : ascii) : bool :=
  Ascii.eqb c ":" || Ascii.eqb c "=" || Ascii.eqb c " " || Ascii.eqb c "-".

(** [/\bp[:= -]?(\d+)\b/] *)
Definition re_p : Re.regex :=
  Re.seq [Re.WordB; Re.Chr "p"; Re.Opt (Re.Cls sep_class);
          Re.Group (Re.Plus Str.is_digit); Re.WordB].
(** [/\bpoints?[:= -]?(\d+)\b/] *)
Definition re_points : Re.regex :=
  Re.seq [Re.WordB; Re.lit "point"; Re.Opt (Re.Chr "s"); Re.Opt (Re.Cls sep_class);
          Re.Group (Re.Plus Str.is_digit); Re.WordB].
(** [/\b(\d+)\s*points?\b/] *)
Definition re_n_points : Re.regex :=
  Re.seq [Re.WordB; Re.Group (Re.Plus Str.is_digit); Re.Star Str.is_space;
          Re.lit "point"; Re.Opt (Re.Chr "s"); Re.WordB].

(** The three attempts of [parsePoints] on one lower-cased label. *)
Definition points_match (s : string) : option (option (list ascii)) :=
  Re.orelse (Re.exec re_p s)
    (fun _ => Re.orelse (Re.exec re_points s) (fun _ => Re.exec re_n_points s)).

Fixpoint parsePoints (labels : list Label) : num :=
  match labels with
  | [] => Num.one
  | l :: rest =>
      let s := Str.toLowerCase (label_name l) in
      match points_match s with
      | Some cap => Num.max Num.one (Js.parseInt_capture cap)
      | None => parsePoints rest
      end
  end.

Definition some_name (r : Re.regex) (names : list string) : bool :=
  existsb (Re.test r) names.

Definition guessType (labels : list Label) (fallback : string) : string :=
  let names := map (fun l => Str.toLowerCase (label_name l)) labels in
  if some_name (Re.alt [Re.lit "bug"; Re.lit "fix"; Re.lit "defect"]) names then "bug"
  else if some_name (Re.alt [Re.lit "doc"; Re.lit "docs"]) names then "docs"
  else if some_name (Re.alt [Re.lit "feat"; Re.lit "feature"; Re.lit "enhancement"]) names
  then "feature"
  else if some_name (Re.alt [Re.lit "infra"; Re.lit "ops"; Re.lit "devops"]) names then "infra"
  else if some_name (Re.alt [Re.lit "task"; Re.lit "chore"]) names then "task"
  else if Str.nonempty fallback then fallback else "task".

(** [/\bp[:= -]?\d+\b/] and [/\bpoints?[:= -]?\d+\b/], as [takeTags] writes them. *)
Definition re_p_tag : Re.regex :=
  Re.seq [Re.WordB; Re.Chr "p"; Re.Opt (Re.Cls sep_class); Re.Plus Str.is_digit; Re.WordB].
Definition re_points_tag : Re.regex :=
  Re.seq [Re.WordB; Re.lit "point"; Re.Opt (Re.Chr "s"); Re.Opt (Re.Cls sep_class);
          Re.Plus Str.is_digit; Re.WordB].

Definition takeTags (labels : list Label) : list string :=
  firstn 6
    (List.filter (fun n => negb (Re.test re_points_tag (Str.toLowerCase n)))
       (List.filter (fun n => negb (Re.test re_p_tag (Str.toLowerCase n)))
          (List.filter Str.nonempty (map label_name labels)))).

(** [parts.slice(-1)[0]] of [repository_url.split("/")]. *)
Definition repoFromUrl (repository_url : string) : option string :=
  last (Str.split "/" repository_url).

(** ** The environment of one run *)

Module Gh.

(** [GET /search/issues?q=..&per_page=..&page=..] *)
Record request : Type := mk_request {
  q : string;
  per_page : nat;
  page : nat
}.

(** The decoded body of a successful response; [items] may be missing. *)
Record response : Type := mk_response {
  items : option (list Item.t)
}.

End Gh.

(** A property of a workspace-database page, by its [type]. *)
Inductive Property : Type :=
| PTitle (plain_texts : list string)
| PRichText (plain_texts : list string)
| PUrl (u : option string)
| PSelect (name : option string)
| PStatus (name : option string)
| PMultiSelect (names : option (list string))
| PNumber (n : option num)
| PCheckbox (b : bool)
| POther.                     (* any other type, or none *)

Module Page.

Record t : Type := mk {
  properties : option (gmap string Property);
  url : value
}.

End Page.

Module Notion.

(** [POST /v1/databases/<db>/query] with body [{page_size, start_cursor}]. *)
Record request : Type := mk_request {
  database : string;
  page_size : nat;
  start_cursor : option string
}.

Record response : Type := mk_response {
  results : option (list Page.t);
  has_more : bool;
  next_cursor : option string
}.

End Notion.

(** An HTTP answer: the message of the thrown error ([!r.ok]) or the body. *)
Inductive answer (A : Type) : Type :=
| Failed (message : string)
| Body (a : A).
Arguments Failed {A} message.
Arguments Body {A} a.

Record Env : Type := mkEnv {
  env_ORG : option string;
  env_SUBSET : option string;
  env_GH_TOKEN : option string;
  env_NOTION_TOKEN : option string;
  env_NOTION_TASKS_DB : option string;
  gh_server : Gh.request -> answer Gh.response;
  notion_server : Notion.request -> answer Notion.response;
  clock : string                 (* [new Date().toISOString()] *)
}.

(** [process.env.X || d] *)
Definition env_or (x : option string) (d : string) : string :=
  match x with
  | Some s => if Str.nonempty s then s else d
  | None => d
  end.

Definition ORG (e : Env) : string := env_or (env_ORG e) "jai-nexus".
Definition SUBSET_RAW (e : Env) : string := Str.trim (env_or (env_SUBSET e) "").
Definition SUBSET (e : Env) : option (gset string) :=
  if Str.nonempty (SUBSET_RAW e)
  then Some (list_to_set (map Str.trim (Str.split "," (SUBSET_RAW e))))
  else None.
Definition NOTION_TOKEN (e : Env) : string := env_or (env_NOTION_TOKEN e) "".
Definition NOTION_DB (e : Env) : string := env_or (env_NOTION_TASKS_DB e) "".

(** [SUBSET.has(repo)] *)
Definition subset_has (allow : gset string) (repo : option string) : bool :=
  match repo with
  | Some r => bool_decide (r ∈ allow)
  | None => false
  end.

(** ** Results of asynchronous code *)

Inductive result (A : Type) : Type :=
| Ret (a : A)           (* the promise is fulfilled *)
| Throw (message : string)   (* the promise is rejected *)
| Pending.              (* the loop has not finished within the fuel *)
Arguments Ret {A} a.
Arguments Throw {A} message.
Arguments Pending {A}.

(** [p.catch(e => { console.warn(..); return []; })] *)
Definition catch_empty {A} (r : result (list A)) : result (list A) :=
  match r with
  | Throw _ => Ret []
  | _ => r
  end.

(** *** The code-hosting fetcher

    [search] pushes onto the array [all] of the enclosing function and
    calls [gh_get]; the state carries that array and the log of the
    requests sent so far.  A rejection keeps the state. *)

Module GhM.

Record state : Type := mk_state {
  all : list Item.t;
  log : list Gh.request
}.

Definition M (A : Type) : Type := state -> result A * state.

Definition ret {A} (a : A) : M A := fun st => (Ret a, st).

Definition bind {A B} (m : M A) (f : A -> M B) : M B :=
  fun st =>
    match m st with
    | (Ret a, st') => f a st'
    | (Throw e, st') => (Throw e, st')
    | (Pending, st') => (Pending, st')
    end.

Definition push (xs : list Item.t) : M unit :=
  fun st => (Ret tt, mk_state (all st ++ xs) (log st)).

Definition get_all : M (list Item.t) := fun st => (Ret (all st), st).

End GhM.

#[global] Instance ghm_ret : MRet GhM.M := @GhM.ret.
#[global] Instance ghm_bind : MBind GhM.M := fun A B f m => GhM.bind m f.

Section GithubFetcher.
Variable e : Env.

Definition gh_get (req : Gh.request) : GhM.M Gh.response :=
  fun st =>
    let st' := GhM.mk_state (GhM.all st) (GhM.log st ++ [req]) in
    match gh_server e req with
    | Body data => (Ret data, st')
    | Failed msg => (Throw msg, st')
    end.

Definition per_page : nat := 100.

(** The loop [for (let page = 1; page <= 2; page++)], entered at [page]
    with [left] iterations to go. *)
Fixpoint search_from (q : string) (left : nat) (page : nat) : GhM.M unit :=
  match left with
  | O => mret tt
  | S left' =>
      data ← gh_get (Gh.mk_request q per_page page);
      match Gh.items data with
      | None | Some [] => mret tt
      | Some items =>
          GhM.push items;;
          if (length items <? per_page)%nat then mret tt
          else search_from q left' (S page)
      end
  end.

Definition search (q : string) : GhM.M unit := search_from q 2 1.

Definition github_task (it : Item.t) : Task :=
  let repo := repoFromUrl (Item.repository_url it) in
  let labels := match Item.labels it with Some ls => ls | None => [] end in
  let isPR := Item.pull_request it in
  let type := guessType labels (if isPR then "pr" else "issue") in
  let points := parsePoints labels in
  let status := if String.eqb (Item.state it) "closed" then "done" else "open" in
  let tags := takeTags labels in
  Task.mk "github" type repo (Item.number it) (VStr (Item.title it))
    (VStr (Item.html_url it)) points tags status
    (if String.eqb status "done" then Num.one else Num.zero).

Definition github_filter (tasks : list Task) : list Task :=
  match SUBSET e with
  | Some allow => List.filter (fun t => subset_has allow (Task.repo t)) tasks
  | None => tasks
  end.

Definition fetchGithubTasks_m : GhM.M (list Task) :=
  search ("org:" ++ ORG e ++ " is:issue state:open archived:false");;
  search ("org:" ++ ORG e ++ " is:pr    state:open archived:false");;
  all ← GhM.get_all;
  mret (github_filter (map github_task all)).

Definition fetchGithubTasks : result (list Task) :=
  fst (fetchGithubTasks_m (GhM.mk_state [] [])).

End GithubFetcher.

(** ** Workspace-database source *)

Definition plain (texts : list string) : value :=
  VStr (Str.trim (Str.join "" texts)).

Definition prop (p : gmap string Property) (name : string) : value :=
  match p !! name with
  | None | Some POther => VUndef
  | Some (PTitle texts) => plain texts
  | Some (PRichText texts) => plain texts
  | Some (PUrl u) =>
      match u with
      | Some s => Js.or (VStr s) VUndef
      | None => VUndef
      end
  | Some (PSelect name) | Some (PStatus name) =>
      match name with
      | Some s => VStr s
      | None => VUndef
      end
  | Some (PMultiSelect names) =>
      match names with
      | Some l => VArr l
      | None => VArr []
      end
  | Some (PNumber n) =>
      match n with
      | Some x => VNum x
      | None => VUndef
      end
  | Some (PCheckbox b) => VBool b
  end.

Definition normRepo (val : value) : option string :=
  if negb (Js.truthy val) then None
  else match val with
       | VArr l => head l
       | _ => Some (Js.toString val)
       end.

(** 1.001 *)
Definition percent_threshold : num := Num.Fin (1001 # 1000).

Definition normProgress (v : value) : option num :=
  match v with
  | VUndef => None
  | _ =>
      let n := Js.toNumber v in
      if Num.gtb n percent_threshold
      then Some (Num.max Num.zero (Num.min Num.one (Num.div n Num.hundred)))
      else Some (Num.max Num.zero (Num.min Num.one n))
  end.

Definition done_words : list string := ["done"; "shipped"; "complete"; "closed"; "✅"].

(** [page.properties || {}] *)
Definition page_props (page : Page.t) : gmap string Property :=
  match Page.properties page with
  | Some p => p
  | None => ∅
  end.

Definition notion_task (page : Page.t) : Task :=
  let p := page_props page in
  let title := Js.or (prop p "Name") (VStr "Untitled") in
  let statusN :=
    Str.toLowerCase
      (Js.toString (Js.or (Js.or (prop p "Status") (prop p "status")) (VStr ""))) in
  let done := existsb (String.eqb statusN) done_words in
  let repo := normRepo (Js.or (prop p "Repo") (prop p "Repository")) in
  let number := Js.or (prop p "Number") VUndef in
  let url := Js.or (Js.or (prop p "URL") (prop p "Link")) (Page.url page) in
  let type := Str.toLowerCase (Js.toString (Js.or (prop p "Type") (VStr "task"))) in
  let tags := Js.or (prop p "Tags") (VArr []) in
  let points := Js.or (Js.or (prop p "Points") (prop p "pts")) (VNum Num.one) in
  let prog := normProgress (prop p "Progress") in
  Task.mk "notion" type repo number title url
    (Num.max Num.one
       (let n := Js.toNumber points in if Num.truthy n then n else Num.one))
    (match tags with VArr l => firstn 6 l | _ => [] end)
    (if done then "done" else "open")
    (match prog with
     | Some x => x
     | None => if done then Num.one else Num.zero
     end).

Section NotionFetcher.
Variable e : Env.

Definition notion_post (req : Notion.request) : answer Notion.response :=
  notion_server e req.

(** The [while (true)] loop; [fuel] bounds the number of requests. *)
Fixpoint notion_loop (fuel : nat) (cursor : option string) (tasks : list Task)
    : result (list Task) :=
  match fuel with
  | O => Pending
  | S fuel' =>
      match notion_post (Notion.mk_request (NOTION_DB e) 100 cursor) with
      | Failed msg => Throw msg
      | Body data =>
          let tasks' :=
            tasks ++ map notion_task
                       (match Notion.results data with Some ps => ps | None => [] end) in
          if negb (Notion.has_more data) then Ret tasks'
          else notion_loop fuel' (Notion.next_cursor data) tasks'
      end
  end.

(** [!t.repo] *)
Definition no_repo (t : Task) : bool :=
  match Task.repo t with
  | Some r => negb (Str.nonempty r)
  | None => true
  end.

Definition notion_filter (tasks : list Task) : list Task :=
  match SUBSET e with
  | Some allow => List.filter (fun t => no_repo t || subset_has allow (Task.repo t)) tasks
  | None => tasks
  end.

Definition fetchNotionTasks (fuel : nat) : result (list Task) :=
  if negb (Str.nonempty (NOTION_TOKEN e)) || negb (Str.nonempty (NOTION_DB e)) then Ret []
  else match notion_loop fuel None [] with
       | Ret tasks => Ret (notion_filter tasks)
       | r => r
       end.

End NotionFetcher.

(** ** Main *)

(** An object literal with number-valued members, in the order written. *)
Definition object : Type := list (string * value).

Definition field (k : string) (o : object) : option value :=
  snd <$> List.find (fun kv => String.eqb (fst kv) k) o.

Definition keys (o : object) : list string := map fst o.

Definition is_done (t : Task) : bool := String.eqb (Task.status t) "done".

Definition totals_of (tasks : list Task) : object :=
  [ ("open", VNum (Num.of_nat (length (List.filter (fun t => negb (is_done t)) tasks))));
    ("done", VNum (Num.of_nat (length (List.filter is_done tasks))));
    ("xp", VNum (fold_left
                   (fun s t => Num.add s (if Num.truthy (Task.points t)
                                          then Task.points t else Num.zero))
                   (List.filter is_done tasks) Num.zero)) ].

Record Payload : Type := mkPayload {
  generatedAt : string;
  totals : object;
  tasks : list Task
}.

Inductive outcome : Type :=
| Exit (code : nat)       (* [process.exit(code)] *)
| Wrote (p : Payload)     (* the payload handed to [fs.writeFile] *)
| Unsettled.              (* a fetch has not settled within the fuel *)

(** The body of the asynchronous main function.  Creating the directory and
    writing the file are not modelled: the result is the payload that is
    serialised. *)
Definition main (e : Env) (fuel : nat) : outcome :=
  match catch_empty (fetchGithubTasks e), catch_empty (fetchNotionTasks e fuel) with
  | Ret gh, Ret notion =>
      let tasks := gh ++ notion in
      let totals := totals_of tasks in
      Wrote (mkPayload (clock e) totals tasks)
  | _, _ => Unsettled
  end.

(** [ensure(val, name)] lets the script go on when [val] is truthy. *)
Definition ensure (val : option string) : bool := Str.nonempty (env_or val "").

(** The script: [ensure(GH_TOKEN, "GH_TOKEN")], which exits with code 2 when
    the token is missing, then main. *)
Definition script (e : Env) (fuel : nat) : outcome :=
  if ensure (env_GH_TOKEN e) then main e fuel else Exit 2.

(** * Definitions used in the statements *)

(** ** Numbers *)

(** The clamp of the specification, on rationals. *)
Definition clamp (x lo hi : Q) : Q :=
  if Qlt_le_dec x lo then lo else if Qlt_le_dec hi x then hi else x.

(** The rule of the specification: rescale above 1. *)
Definition spec_progress (v : Q) : Q :=
  if Qlt_le_dec 1 v then clamp (v / 100) 0 1 else clamp v 0 1.

(** The same rule with the threshold of the script, 1.001. *)
Definition threshold_progress (v : Q) : Q :=
  if Qlt_le_dec (1001 # 1000) v then clamp (v / 100) 0 1 else clamp v 0 1.

Definition in_unit_interval (x : num) : bool := Num.leb Num.zero x && Num.leb x Num.one.

(** ** Captures of a match

    [keeps r]: [r] has no group, so a match of [r] leaves the capture as
    it was.  [captures r]: every match of [r] goes through a group around
    [\d+] and nothing after it changes the capture. *)

Definition good_capture (cap : option (list ascii)) : Prop :=
  exists ds, cap = Some ds /\ ds <> [] /\ forallb Str.is_digit ds = true.

Inductive keeps : Re.regex -> Prop :=
| keeps_eps : keeps Re.Eps
| keeps_chr c : keeps (Re.Chr c)
| keeps_cls p : keeps (Re.Cls p)
| keeps_seq a b : keeps a -> keeps b -> keeps (Re.Seq a b)
| keeps_alt a b : keeps a -> keeps b -> keeps (Re.Alt a b)
| keeps_opt a : keeps a -> keeps (Re.Opt a)
| keeps_star p : keeps (Re.Star p)
| keeps_plus p : keeps (Re.Plus p)
| keeps_wordb : keeps Re.WordB.

Inductive captures : Re.regex -> Prop :=
| captures_group : captures (Re.Group (Re.Plus Str.is_digit))
| captures_seq_l a b : captures a -> keeps b -> captures (Re.Seq a b)
| captures_seq_r a b : keeps a -> captures b -> captures (Re.Seq a b).

(** ** Tasks and totals *)

Definition status_ok (t : Task) : Prop :=
  Task.status t = "open" \/ Task.status t = "done".

Definition count_status (s : string) (ts : list Task) : nat :=
  length (List.filter (fun t => String.eqb (Task.status t) s) ts).

(** The sum of the specification: the points, added up from 0. *)
Definition sum_points (ts : list Task) : num :=
  fold_left (fun s t => Num.add s (Task.points t)) ts Num.zero.

Definition task_types : list string :=
  ["bug"; "docs"; "feature"; "infra"; "task"; "pr"; "issue"].

(** The two patterns [takeTags] filters on, and the third pattern of
    [parsePoints], each tested on the lower-cased name. *)
Definition p_or_points_label (n : string) : bool :=
  Re.test re_p_tag (Str.toLowerCase n) || Re.test re_points_tag (Str.toLowerCase n).
Definition n_points_label (n : string) : bool :=
  Re.test re_n_points (Str.toLowerCase n).

(** The tags of the specification: the names that match none of the three
    patterns, cut to six. *)
Definition spec_tags (labels : list Label) : list string :=
  firstn 6
    (List.filter (fun n => negb (p_or_points_label n || n_points_label n))
       (map label_name labels)).

(** ** Workspace-database properties by kind *)

(** [s || d] on strings. *)
Definition text_or (s d : string) : string := if Str.nonempty s then s else d.

(** The title of a workspace-database task by the kind of its Name
    property: the text of a title, rich-text, url, select or status
    property, the option names of a multi-select, a number, or the tick of
    a checkbox; the placeholder where that is nothing. *)
Definition spec_title (name : option Property) : value :=
  match name with
  | Some (PTitle texts) | Some (PRichText texts) =>
      VStr (text_or (Str.trim (Str.join "" texts)) "Untitled")
  | Some (PUrl (Some s)) | Some (PSelect (Some s)) | Some (PStatus (Some s)) =>
      VStr (text_or s "Untitled")
  | Some (PMultiSelect (Some names)) => VArr names
  | Some (PMultiSelect None) => VArr []
  | Some (PNumber (Some n)) => if Num.truthy n then VNum n else VStr "Untitled"
  | Some (PCheckbox true) => VBool true
  | _ => VStr "Untitled"
  end.

(** The kinds of property whose value is not text. *)
Definition passed_on (pr : option Property) : bool :=
  match pr with
  | Some (PMultiSelect _) | Some (PNumber _) | Some (PCheckbox _) => true
  | _ => false
  end.

(** The type of a workspace-database task by the kind of its Type property:
    the lower-cased text of the value, or "task" where that is nothing. *)
Definition spec_type (type : option Property) : string :=
  match type with
  | Some (PTitle texts) | Some (PRichText texts) =>
      Str.toLowerCase (text_or (Str.trim (Str.join "" texts)) "task")
  | Some (PUrl (Some s)) | Some (PSelect (Some s)) | Some (PStatus (Some s)) =>
      Str.toLowerCase (text_or s "task")
  | Some (PMultiSelect (Some names)) => Str.toLowerCase (Str.join "," names)
  | Some (PMultiSelect None) => ""
  | Some (PNumber (Some n)) =>
      if Num.truthy n then Str.toLowerCase (Num.toString n) else "task"
  | Some (PCheckbox true) => "true"
  | _ => "task"
  end.

(** ** Fetches *)

(** What a settled fetch contributes to the payload, in the words of the
    specification: its tasks, or nothing when it failed. *)
Inductive contributes : result (list Task) -> list Task -> Prop :=
| contributes_ret ts : contributes (Ret ts) ts
| contributes_throw msg : contributes (Throw msg) [].

Definition notion_unavailable (e : Env) (fuel : nat) : Prop :=
  NOTION_TOKEN e = "" \/ NOTION_DB e = "" \/ exists msg, fetchNotionTasks e fuel = Throw msg.

(** The server honours [per_page]. *)
Definition page_size_respected (e : Env) : Prop :=
  forall req data items,
    gh_server e req = Body data -> Gh.items data = Some items ->
    length items <= Gh.per_page req.

(** An answer with at least [per_page] items. *)
Definition full_page (a : answer Gh.response) : Prop :=
  exists data items, a = Body data /\ Gh.items data = Some items /\ per_page <= length items.

(** The requests for the first [n] pages of a search. *)
Definition page_requests (q : string) (n : nat) : list Gh.request :=
  map (Gh.mk_request q 100) (seq 1 n).

(** The items of the page a request is answered with: none when the request
    fails or the body has no [items]. *)
Definition page_items (e : Env) (req : Gh.request) : list Item.t :=
  match gh_server e req with
  | Body data => match Gh.items data with Some items => items | None => [] end
  | Failed _ => []
  end.

Definition logged (st : GhM.state) (req : Gh.request) : GhM.state :=
  GhM.mk_state (GhM.all st) (GhM.log st ++ [req]).
Definition pushed (st : GhM.state) (items : list Item.t) : GhM.state :=
  GhM.mk_state (GhM.all st ++ items) (GhM.log st).

(** ** Sample runs *)

Module Sample.

Definition issue_bug : Item.t :=
  Item.mk "https://api.github.com/repos/jai-nexus/repoA"
    (Some [LabelStr "bug"; LabelStr "p:3"]) false "open" (VNum (Num.of_Z 7))
    "Crash on start" "https://github.com/jai-nexus/repoA/issues/7".

Definition pr_feature : Item.t :=
  Item.mk "https://api.github.com/repos/jai-nexus/repoB"
    (Some [LabelObj (Some "feature")]) true "closed" (VNum (Num.of_Z 8))
    "Add export" "https://github.com/jai-nexus/repoB/pull/8".

Definition issues_query : string := "org:jai-nexus is:issue state:open archived:false".

(** One open issue and one closed pull request. *)
Definition gh_two (r : Gh.request) : answer Gh.response :=
  if (Gh.page r =? 1)%nat then
    if String.eqb (Gh.q r) issues_query then Body (Gh.mk_response (Some [issue_bug]))
    else Body (Gh.mk_response (Some [pr_feature]))
  else Body (Gh.mk_response (Some [])).

Definition page_docs : Page.t :=
  Page.mk
    (Some (<["Name" := PTitle [" Write "; "docs "]]>
          (<["Status" := PStatus (Some "Done")]>
          (<["Points" := PNumber (Some (Num.of_Z 5))]>
          (<["Progress" := PNumber (Some (Num.of_Z 40))]> ∅)))))
    (VStr "https://www.notion.so/docs").

Definition notion_one (r : Notion.request) : answer Notion.response :=
  Body (Notion.mk_response (Some [page_docs]) false None).

Definition notion_down (r : Notion.request) : answer Notion.response :=
  Failed "Notion 503".

Definition stamp : string := "2026-01-01T00:00:00.000Z".

(** Both sources answer. *)
Definition env_full : Env :=
  mkEnv None None (Some "ghs_token") (Some "secret") (Some "db") gh_two notion_one stamp.

(** The workspace database answers 503. *)
Definition env_notion_down : Env :=
  mkEnv None None (Some "ghs_token") (Some "secret") (Some "db") gh_two notion_down stamp.

(** An allow-list with one repository. *)
Definition env_subset : Env :=
  mkEnv None (Some "repoA") (Some "ghs_token") (Some "secret") (Some "db")
    gh_two notion_one stamp.

(** A search item whose [repository_url] is empty. *)
Definition item_no_repo : Item.t :=
  Item.mk "" None false "open" (VNum (Num.of_Z 9)) "Orphan" "https://github.com/x".

(** A page whose Progress is the number 1.0005. *)
Definition page_just_over_one : Page.t :=
  Page.mk (Some (<["Progress" := PNumber (Some (Num.Fin (10005 # 10000)))]> ∅))
    (VStr "https://www.notion.so/p1").

(** A search item with an empty title. *)
Definition item_untitled : Item.t :=
  Item.mk "https://api.github.com/repos/jai-nexus/repoA" (Some []) false "open"
    (VNum (Num.of_Z 10)) "" "https://github.com/jai-nexus/repoA/issues/10".

(** A page whose Type is the select option "Epic". *)
Definition page_epic : Page.t :=
  Page.mk (Some (<["Name" := PTitle ["Roadmap"]]> (<["Type" := PSelect (Some "Epic")]> ∅)))
    (VStr "https://www.notion.so/p2").

(** A page whose Name is a multi-select without options. *)
Definition page_name_options : Page.t :=
  Page.mk (Some (<["Name" := PMultiSelect (Some [])]> ∅)) (VStr "https://www.notion.so/p4").

(** A page whose Type is a multi-select with the options Bug and Fix. *)
Definition page_type_options : Page.t :=
  Page.mk (Some (<["Name" := PTitle ["Crash"]]>
                (<["Type" := PMultiSelect (Some ["Bug"; "Fix"])]> ∅)))
    (VStr "https://www.notion.so/p5").

(** A page whose Progress is a text property reading "half". *)
Definition page_text_progress : Page.t :=
  Page.mk (Some (<["Name" := PTitle ["Migrate"]]> (<["Progress" := PRichText ["half"]]> ∅)))
    (VStr "https://www.notion.so/p3").

Definition notion_text_progress (r : Notion.request) : answer Notion.response :=
  Body (Notion.mk_response (Some [page_text_progress]) false None).

Definition env_text_progress : Env :=
  mkEnv None None (Some "ghs_token") (Some "secret") (Some "db")
    gh_two notion_text_progress stamp.

(** A server with 103 open issues: a full first page and three more. *)
Definition gh_two_pages (r : Gh.request) : answer Gh.response :=
  if (Gh.page r =? 1)%nat
  then Body (Gh.mk_response (Some (repeat issue_bug (Nat.min (Gh.per_page r) 100))))
  else Body (Gh.mk_response (Some (repeat issue_bug (Nat.min (Gh.per_page r) 3)))).

Definition env_two_pages : Env :=
  mkEnv None None (Some "ghs_token") None None gh_two_pages notion_down stamp.

(** A server that answers every request with 150 items, whatever [per_page]
    asks for. *)
Definition gh_oversized (r : Gh.request) : answer Gh.response :=
  Body (Gh.mk_response (Some (repeat issue_bug 150))).

Definition env_oversized : Env :=
  mkEnv None None (Some "ghs_token") None None gh_oversized notion_down stamp.

(** What [main] writes for [env_full]. *)
Definition payload_full : Payload :=
  Eval vm_compute in
    match main env_full 1 with
    | Wrote p => p
    | _ => mkPayload "" [] []
    end.

End Sample.

(** ** Definitions for the further properties *)

(** The name of the label is ASCII text. *)
Definition ascii_name (l : Label) : Prop :=
  forallb (fun c => (nat_of_ascii c <? 128)%nat) (Str.chars (label_name l)) = true.

(** The label matches none of the three patterns of [parsePoints]. *)
Definition no_points (l : Label) : Prop :=
  points_match (Str.toLowerCase (label_name l)) = None.

(** [w] occurs in [s]. *)
Definition occurs_in (w s : string) : Prop :=
  exists pre post, Str.chars s = pre ++ Str.chars w ++ post.

(** Some label has a lower-cased name in which one of the words occurs. *)
Definition some_label_has (words : list string) (labels : list Label) : Prop :=
  exists l w, In l labels /\ In w words /\ occurs_in w (Str.toLowerCase (label_name l)).

(** [s] minus the prefix [w]. *)
Fixpoint strip_prefix (w s : list ascii) : option (list ascii) :=
  match w, s with
  | [], _ => Some s
  | c :: w', x :: s' => if Ascii.eqb x c then strip_prefix w' s' else None
  | _ :: _, [] => None
  end.

(** The character before the position reached after reading [w]. *)
Definition last_char (w : list ascii) (prev : option ascii) : option ascii :=
  match last w with
  | Some c => Some c
  | None => prev
  end.

(** The continuation of [Re.search]: the match is complete. *)
Definition accept : @Re.cont (option (list ascii)) := fun _ _ cap => Some cap.

(** The pattern without its groups. *)
Fixpoint erase_groups (r : Re.regex) : Re.regex :=
  match r with
  | Re.Seq a b => Re.Seq (erase_groups a) (erase_groups b)
  | Re.Alt a b => Re.Alt (erase_groups a) (erase_groups b)
  | Re.Opt a => Re.Opt (erase_groups a)
  | Re.Group a => erase_groups a
  | _ => r
  end.

(** Two continuations that succeed on the same inputs, whatever the capture. *)
Definition same_success {R} (k k' : @Re.cont R) : Prop :=
  forall prev s c c', is_Some (k prev s c) <-> is_Some (k' prev s c').

(** What [takeTags] keeps of the names, before the cut to six. *)
Definition tag_like (n : string) : bool :=
  Str.nonempty n && negb (p_or_points_label n).

(** Every match of [r] reads at least one digit. *)
Inductive eats_digit : Re.regex -> Prop :=
| eats_plus : eats_digit (Re.Plus Str.is_digit)
| eats_group r : eats_digit r -> eats_digit (Re.Group r)
| eats_seq_l a b : eats_digit a -> eats_digit (Re.Seq a b)
| eats_seq_r a b : eats_digit b -> eats_digit (Re.Seq a b).

Definition has_digit (l : list ascii) : bool := existsb Str.is_digit l.

(** No character of the name is a digit. *)
Definition digit_free (n : string) : Prop := has_digit (Str.chars n) = false.

(** No character of [s] is [c]. *)
Definition free_of (c : ascii) (s : string) : Prop :=
  Forall (fun x => x <> c) (Str.chars s).

(** The list does not start with white space. *)
Definition clean (l : list ascii) : Prop :=
  match l with
  | c :: _ => Str.is_space c = false
  | [] => True
  end.

(** One run of the code-hosting fetcher, from the empty array [all]: its
    result and the state it leaves, with the requests sent, in order. *)
Definition github_run (e : Env) : result (list Task) * GhM.state :=
  fetchGithubTasks_m e (GhM.mk_state [] []).

Definition github_requests (e : Env) : list Gh.request := GhM.log (snd (github_run e)).

(** The two search strings of [fetchGithubTasks]. *)
Definition issues_q (e : Env) : string :=
  "org:" ++ ORG e ++ " is:issue state:open archived:false".
Definition prs_q (e : Env) : string :=
  "org:" ++ ORG e ++ " is:pr    state:open archived:false".

(** The server answers the request with a body. *)
Definition answered (e : Env) (req : Gh.request) : Prop :=
  exists data, gh_server e req = Body data.

(** The workspace database always announces another page. *)
Definition always_more (e : Env) : Prop :=
  forall req, exists data, notion_server e req = Body data /\ Notion.has_more data = true.

Definition notion_configured (e : Env) : Prop :=
  Str.nonempty (NOTION_TOKEN e) = true /\ Str.nonempty (NOTION_DB e) = true.

(** A task passes the allow-list: it has no repo, or the list has its repo. *)
Definition passes (allow : gset string) (t : Task) : Prop :=
  no_repo t = true \/ exists r, Task.repo t = Some r /\ r ∈ allow.

(** A page with the given Status property. *)
Definition page_with_status (mk : option string -> Property) (s : string)
    (p : gmap string Property) (url : value) : Page.t :=
  Page.mk (Some (<["Status" := mk (Some s)]> p)) url.

(** A page whose Repo is a multi-select with the given options. *)
Definition page_with_repos (names : list string) (p : gmap string Property) (url : value)
    : Page.t :=
  Page.mk (Some (<["Repo" := PMultiSelect (Some names)]> p)) url.

Module More.

(** A workspace database whose every answer announces another page. *)
Definition notion_endless (r : Notion.request) : answer Notion.response :=
  Body (Notion.mk_response (Some [Sample.page_docs]) true (Some "next")).

Definition env_endless : Env :=
  mkEnv None None (Some "ghs_token") (Some "secret") (Some "db")
    Sample.gh_two notion_endless Sample.stamp.

(** An allow-list written with spaces around the names. *)
Definition env_spaced_subset : Env :=
  mkEnv None (Some " repoA , repoB ") (Some "ghs_token") None None
    Sample.gh_two Sample.notion_one Sample.stamp.

Definition spaced_allow : gset string :=
  list_to_set (map Str.trim (Str.split "," (SUBSET_RAW env_spaced_subset))).

(** What [main] writes for [Sample.env_subset]. *)
Definition payload_subset : Payload :=
  Eval vm_compute in
    match main Sample.env_subset 1 with
    | Wrote p => p
    | _ => mkPayload "" [] []
    end.

(** What the code-hosting fetcher returns for [Sample.env_two_pages]. *)
Definition tasks_two_pages : list Task :=
  match fetchGithubTasks Sample.env_two_pages with
  | Ret ts => ts
  | _ => []
  end.

Definition labels_plain : list Label :=
  [LabelStr "bug"; LabelObj None; LabelStr "Points"; LabelStr "p:high"].

Definition labels_docs_ops : list Label := [LabelStr "Documentation"; LabelStr "ops"].

(** A label that reads p:1 followed by 309 zeros. *)
Definition label_overflow : Label :=
  LabelStr ("p:1" ++ Str.of_chars (repeat "0"%char 309)).

End More.

(** * Properties *)

(** ** The model on small inputs *)

Example re_wordb_1 :
  Re.test (Re.seq [Re.WordB; Re.Chr "p"; Re.Plus Str.is_digit; Re.WordB]) "xp3" = false.
Proof. reflexivity. Qed.

Example re_wordb_2 :
  Re.exec (Re.seq [Re.WordB; Re.Chr "p"; Re.Group (Re.Plus Str.is_digit); Re.WordB]) "a p34 b"
  = Some (Some (Str.chars "34")).
Proof. reflexivity. Qed.

Example num_cmp_1 : Num.ltb (Num.Fin (1001 # 1000)) (Num.Fin (10005 # 10000)) = false.
Proof. reflexivity. Qed.
Example num_div_1 : Num.eqb (Num.div (Num.of_Z 50) Num.hundred) (Num.Fin (1 # 2)) = true.
Proof. reflexivity. Qed.

Example num_toString_1 :
  map Num.toString [Num.of_Z 5; Num.Fin (1 # 2); Num.Fin (- 5 # 4); Num.Fin (1 # 10000000);
                    Num.of_Z (10 ^ 21); Num.of_Z 1200; Num.Fin (123 # 100000000)]
  = ["5"; "0.5"; "-1.25"; "1e-7"; "1e+21"; "1200"; "0.00000123"].
Proof. vm_compute. reflexivity. Qed.

Example num_ofString_1 :
  map Num.ofString ["12"; " 1.5e2 "; ""; "half"; "0x1F"; "-.5"; "5."; "."; "1e"; "Infinity"]
  = [Num.of_Z 12; Num.of_Z 150; Num.zero; Num.NaN; Num.of_Z 31; Num.Fin (- 5 # 10);
     Num.of_Z 5; Num.NaN; Num.NaN; Num.PInf].
Proof. vm_compute. reflexivity. Qed.

Example parsePoints_1 :
  map parsePoints [[LabelStr "bug"; LabelStr "p:3"]; [LabelObj (Some "5 Points")];
                   [LabelStr "points-0"]; [LabelStr "help wanted"]; [LabelStr "p 12"];
                   [LabelStr "xp3"; LabelObj None]]
  = [Num.of_Z 3; Num.of_Z 5; Num.one; Num.one; Num.of_Z 12; Num.one].
Proof. vm_compute. reflexivity. Qed.

Example takeTags_1 :
  takeTags [LabelStr "bug"; LabelStr "P:3"; LabelObj None; LabelStr "points=2";
            LabelStr "5 points"; LabelStr "a"; LabelStr "b"; LabelStr "c"; LabelStr "d";
            LabelStr "e"]
  = ["bug"; "5 points"; "a"; "b"; "c"; "d"].
Proof. vm_compute. reflexivity. Qed.

Example guessType_1 :
  map (fun l => guessType l "issue") [[LabelStr "Bugfix"]; [LabelStr "documentation"];
                                      [LabelStr "needs-triage"]; [LabelStr "DevOps"; LabelStr "feat"]]
  = ["bug"; "docs"; "issue"; "feature"].
Proof. vm_compute. reflexivity. Qed.

Example repoFromUrl_1 :
  map repoFromUrl ["https://api.github.com/repos/jai-nexus/site"; ""; "a/"]
  = [Some "site"; Some ""; Some ""].
Proof. vm_compute. reflexivity. Qed.

(** ** Numbers *)

Lemma max_not_nan a x :
  Num.is_nan a = false -> Num.is_nan x = false ->
  Num.max a x = if Num.ltb a x then x else a.
Proof. intros Ha Hx. unfold Num.max. rewrite Ha, Hx. reflexivity. Qed.

Lemma min_not_nan a x :
  Num.is_nan a = false -> Num.is_nan x = false ->
  Num.min a x = if Num.ltb x a then x else a.
Proof. intros Ha Hx. unfold Num.min. rewrite Ha, Hx. reflexivity. Qed.

Lemma ltb_leb a b : Num.ltb a b = true -> Num.leb a b = true.
Proof. unfold Num.ltb, Num.leb. destruct (Num.cmp a b) as [[]|]; congruence. Qed.

(** [Math.max(1, x)] is at least 1 unless [x] is NaN. *)
Lemma max_one_ge x :
  Num.is_nan x = false -> Num.leb Num.one (Num.max Num.one x) = true.
Proof.
  intros Hx. rewrite max_not_nan by (reflexivity || assumption).
  destruct (Num.ltb Num.one x) eqn:E.
  - apply ltb_leb, E.
  - reflexivity.
Qed.

Lemma leb_one_truthy x : Num.leb Num.one x = true -> Num.truthy x = true.
Proof.
  destruct x as [| | |q]; intros H; try reflexivity; [cbv in H; discriminate|].
  unfold Num.leb in H. simpl in H. change (inject_Z 1) with 1%Q in H.
  assert (Hle : (1 <= q)%Q).
  { apply Qle_alt. destruct (1 ?= q)%Q; congruence. }
  simpl. destruct (Qeq_bool q 0) eqn:E; [|reflexivity].
  apply Qeq_bool_iff in E. lra.
Qed.

Lemma ltb_fin x y : Num.ltb (Num.Fin x) (Num.Fin y) = true <-> (x < y)%Q.
Proof.
  unfold Num.ltb. simpl. rewrite Qlt_alt.
  destruct (x ?= y)%Q; split; congruence.
Qed.

Lemma ltb_fin_false x y : Num.ltb (Num.Fin x) (Num.Fin y) = false <-> (y <= x)%Q.
Proof.
  rewrite <- not_true_iff_false, ltb_fin. split; [apply Qnot_lt_le | apply Qle_not_lt].
Qed.

Lemma eqb_fin x y : (x == y)%Q -> Num.eqb (Num.Fin x) (Num.Fin y) = true.
Proof. intros H. unfold Num.eqb. simpl. apply Qeq_alt in H. rewrite H. reflexivity. Qed.

(** [Math.max(0, Math.min(1, x))] is the clamp to [0, 1]. *)
Lemma max_min_clamp (x : Q) :
  Num.eqb (Num.max Num.zero (Num.min Num.one (Num.Fin x))) (Num.Fin (clamp x 0 1)) = true.
Proof.
  rewrite min_not_nan by reflexivity.
  unfold clamp, Num.one, Num.zero, Num.of_Z. change (inject_Z 1) with 1%Q.
  change (inject_Z 0) with 0%Q.
  destruct (Num.ltb (Num.Fin x) (Num.Fin 1)) eqn:E1.
  - apply ltb_fin in E1. rewrite max_not_nan by reflexivity.
    destruct (Num.ltb (Num.Fin 0) (Num.Fin x)) eqn:E0.
    + apply ltb_fin in E0.
      destruct (Qlt_le_dec x 0); [lra|]. destruct (Qlt_le_dec 1 x); [lra|].
      apply eqb_fin. reflexivity.
    + apply ltb_fin_false in E0.
      destruct (Qlt_le_dec x 0); [reflexivity|].
      destruct (Qlt_le_dec 1 x); [lra|].
      apply eqb_fin. lra.
  - apply ltb_fin_false in E1.
    destruct (Qlt_le_dec x 0); [lra|]. destruct (Qlt_le_dec 1 x); [reflexivity|].
    apply eqb_fin. lra.
Qed.

(** ... and lies in [0, 1] unless [x] is NaN. *)
Lemma max_min_range x :
  Num.is_nan x = false ->
  let y := Num.max Num.zero (Num.min Num.one x) in
  Num.leb Num.zero y = true /\ Num.leb y Num.one = true.
Proof.
  intros Hx. cbv zeta. rewrite min_not_nan by (reflexivity || assumption).
  destruct (Num.ltb x Num.one) eqn:E1.
  - rewrite max_not_nan by (reflexivity || assumption).
    destruct (Num.ltb Num.zero x) eqn:E0.
    + split; apply ltb_leb; assumption.
    + split; reflexivity.
  - split; reflexivity.
Qed.

(** ** The capture of the points patterns

    Each of the three patterns of [parsePoints] has its one group around
    [\d+]: when the pattern matches, the capture is a non-empty string of
    digits, so [parseInt] of it is a number. *)

Create HintDb re.
#[local] Hint Constructors keeps captures : re.

Section RunInversion.
Context {R : Type}.
Implicit Types (k : @Re.cont R) (x : R).

Lemma orelse_some {A} (a : option A) (b : unit -> option A) (x : A) :
  Re.orelse a b = Some x -> a = Some x \/ b tt = Some x.
Proof. destruct a; simpl; auto. Qed.

Lemma star_inv p (k : option ascii -> list ascii -> option R) prev s x :
  Re.star p k prev s = Some x ->
  exists ds s' prev', s = ds ++ s' /\ forallb p ds = true /\ k prev' s' = Some x.
Proof.
  revert prev. induction s as [|c s IH]; intros prev H; simpl in H.
  - exists [], [], prev. auto.
  - destruct (p c) eqn:Hc.
    + apply orelse_some in H as [H|H].
      * apply IH in H as (ds & s' & prev' & -> & Hds & Hk).
        exists (c :: ds), s', prev'. simpl. rewrite Hc, Hds. auto.
      * exists [], (c :: s), prev. auto.
    + exists [], (c :: s), prev. auto.
Qed.

Lemma plus_inv p prev s cap k x :
  Re.run (Re.Plus p) prev s cap k = Some x ->
  exists ds s' prev',
    s = ds ++ s' /\ ds <> [] /\ forallb p ds = true /\ k prev' s' cap = Some x.
Proof.
  simpl. destruct s as [|c s]; [discriminate|].
  destruct (p c) eqn:Hc; [|discriminate].
  intros H. apply star_inv in H as (ds & s' & prev' & -> & Hds & Hk).
  exists (c :: ds), s', prev'. simpl. rewrite Hc, Hds. auto.
Qed.

Lemma run_keeps r :
  keeps r -> forall prev s cap k x,
  Re.run r prev s cap k = Some x -> exists prev' s', k prev' s' cap = Some x.
Proof.
  induction 1 as [|c|p|a b _ IHa _ IHb|a b _ IHa _ IHb|a _ IHa|p|p|];
    intros prev s cap k x H; simpl in H.
  - eauto.
  - destruct s as [|c' s]; [discriminate|]. destruct (Ascii.eqb c' c); [eauto|discriminate].
  - destruct s as [|c' s]; [discriminate|]. destruct (p c'); [eauto|discriminate].
  - apply IHa in H as (prev' & s' & H). apply IHb in H. exact H.
  - apply orelse_some in H as [H|H]; eauto.
  - apply orelse_some in H as [H|H]; eauto.
  - apply star_inv in H as (_ & s' & prev' & _ & _ & H). eauto.
  - apply (plus_inv p prev s cap k x) in H as (_ & s' & prev' & _ & _ & _ & H). eauto.
  - destruct (xorb _ _); [eauto|discriminate].
Qed.

Lemma run_captures r :
  captures r -> forall prev s cap k x,
  Re.run r prev s cap k = Some x ->
  exists prev' s' cap', good_capture cap' /\ k prev' s' cap' = Some x.
Proof.
  induction 1 as [|a b _ IHa Hb|a b Ha _ IHb]; intros prev s cap k x H.
  - change (Re.run (Re.Plus Str.is_digit) prev s cap
              (fun prev' s' _ => k prev' s' (Some (firstn (length s - length s') s)))
            = Some x) in H.
    apply plus_inv in H as (ds & s' & prev' & -> & Hne & Hds & Hk).
    rewrite length_app in Hk.
    replace (length ds + length s' - length s') with (length ds) in Hk by lia.
    rewrite firstn_app, Nat.sub_diag, firstn_all in Hk. simpl in Hk.
    rewrite app_nil_r in Hk.
    exists prev', s', (Some ds). split; [exists ds; auto|exact Hk].
  - simpl in H. apply IHa in H as (prev' & s' & cap' & Hgood & H).
    apply (run_keeps b Hb) in H as (prev'' & s'' & H). eauto 6.
  - simpl in H. apply (run_keeps a Ha) in H as (prev' & s' & H).
    apply IHb in H. exact H.
Qed.

End RunInversion.

Lemma search_captures r :
  captures r -> forall s prev cap, Re.search r prev s = Some cap -> good_capture cap.
Proof.
  intros Hr. induction s as [|c s IH]; intros prev cap H; simpl in H.
  - apply orelse_some in H as [H|H]; [|discriminate].
    apply (run_captures r Hr) in H as (_ & _ & cap' & Hgood & [= <-]). exact Hgood.
  - apply orelse_some in H as [H|H].
    + apply (run_captures r Hr) in H as (_ & _ & cap' & Hgood & [= <-]). exact Hgood.
    + eapply IH, H.
Qed.

Lemma captures_re_p : captures re_p.
Proof. cbv [re_p Re.seq]. auto 10 with re. Qed.

Lemma captures_re_points : captures re_points.
Proof. cbv [re_points Re.seq Re.lit Re.lit_chars Str.chars list_ascii_of_string]. auto 20 with re. Qed.

Lemma captures_re_n_points : captures re_n_points.
Proof. cbv [re_n_points Re.seq Re.lit Re.lit_chars Str.chars list_ascii_of_string]. auto 20 with re. Qed.

Lemma points_match_good s cap : points_match s = Some cap -> good_capture cap.
Proof.
  unfold points_match, Re.exec. intros H.
  apply orelse_some in H as [H|H]; [|apply orelse_some in H as [H|H]].
  - exact (search_captures _ captures_re_p _ _ _ H).
  - exact (search_captures _ captures_re_points _ _ _ H).
  - exact (search_captures _ captures_re_n_points _ _ _ H).
Qed.

Lemma digit_not_space c : Str.is_digit c = true -> Str.is_space c = false.
Proof. destruct c as [[] [] [] [] [] [] [] []]; cbv; congruence. Qed.

Lemma digit_not_sign c :
  Str.is_digit c = true -> c <> "-"%char /\ c <> "+"%char.
Proof. destruct c as [[] [] [] [] [] [] [] []]; cbv; split; congruence. Qed.

Lemma span_all p ds : forallb p ds = true -> Num.span p ds = (ds, []).
Proof.
  induction ds as [|c ds IH]; simpl; [reflexivity|].
  intros [Hc Hds]%andb_prop. rewrite Hc, (IH Hds). reflexivity.
Qed.

Lemma round64_pos_cases z :
  Num.round64_pos z = Num.PInf \/ exists z', Num.round64_pos z = Num.of_Z z'.
Proof.
  unfold Num.round64_pos. cbv zeta.
  destruct (_ <=? 0)%Z; [right; eauto|].
  destruct (2 ^ 1024 <=? _)%Z; [left; reflexivity|right; eauto].
Qed.

Lemma round64_not_nan z : Num.is_nan (Num.round64 z) = false.
Proof.
  unfold Num.round64.
  destruct (z <? 0)%Z;
    [destruct (round64_pos_cases (- z)) as [->|[z' ->]]
    |destruct (round64_pos_cases z) as [->|[z' ->]]]; reflexivity.
Qed.

Lemma parseInt_digits ds :
  ds <> [] -> forallb Str.is_digit ds = true ->
  Js.parseInt ds = Num.round64 (Str.digits_val ds).
Proof.
  intros Hne Hds. destruct ds as [|c ds]; [congruence|].
  pose proof Hds as Hall. simpl in Hds. apply andb_prop in Hds as [Hc _].
  unfold Js.parseInt. simpl Str.trimStart. rewrite (digit_not_space c Hc).
  destruct (digit_not_sign c Hc) as [Hm Hp].
  assert (E : (match c :: ds with
               | "-"%char :: t => (true, t)
               | "+"%char :: t => (false, t)
               | _ => (false, c :: ds)
               end) = (false, c :: ds)).
  { destruct c as [[] [] [] [] [] [] [] []]; try reflexivity; congruence. }
  rewrite E, (span_all _ _ Hall). reflexivity.
Qed.

Lemma parseInt_capture_good cap :
  good_capture cap -> Num.is_nan (Js.parseInt_capture cap) = false.
Proof.
  intros (ds & -> & Hne & Hds). simpl. rewrite parseInt_digits by assumption.
  apply round64_not_nan.
Qed.

(** [parsePoints] returns a number that is at least 1. *)
Lemma parsePoints_ge_1 labels : Num.leb Num.one (parsePoints labels) = true.
Proof.
  induction labels as [|l rest IH]; simpl; [reflexivity|].
  destruct (points_match _) as [cap|] eqn:E; [|exact IH].
  apply max_one_ge, parseInt_capture_good, (points_match_good _ _ E).
Qed.

(** ** What the fetchers return *)

Ltac unfold_ghm :=
  unfold mbind, ghm_bind, GhM.bind, mret, ghm_ret, GhM.ret, GhM.get_all, GhM.push in *.

Lemma search_from_not_pending e q left : forall page st,
  fst (search_from e q left page st) <> Pending.
Proof.
  induction left as [|left IH]; intros page st; simpl; [discriminate|].
  unfold_ghm. unfold gh_get.
  destruct (gh_server e _) as [msg|data]; [discriminate|].
  destruct (Gh.items data) as [[|it items]|]; try discriminate.
  destruct (_ <? _)%nat; [discriminate|apply IH].
Qed.

(** The code-hosting fetcher settles, and what it returns is the filtered
    image of the accumulated items under [github_task]. *)
Lemma fetchGithubTasks_cases e :
  (exists msg, fetchGithubTasks e = Throw msg) \/
  (exists items, fetchGithubTasks e = Ret (github_filter e (map github_task items))).
Proof.
  unfold fetchGithubTasks, fetchGithubTasks_m, search. unfold_ghm.
  match goal with |- context [search_from e ?q 2 1 ?st] =>
    pose proof (search_from_not_pending e q 2 1 st) as H1;
    destruct (search_from e q 2 1 st) as [[[]|msg|] st1] end;
    [|left; eexists; reflexivity|contradiction H1; reflexivity].
  match goal with |- context [search_from e ?q 2 1 ?st] =>
    pose proof (search_from_not_pending e q 2 1 st) as H2;
    destruct (search_from e q 2 1 st) as [[[]|msg|] st2] end;
    [|left; eexists; reflexivity|contradiction H2; reflexivity].
  right. eexists. reflexivity.
Qed.

Lemma notion_loop_ret e fuel : forall cursor acc ts,
  notion_loop e fuel cursor acc = Ret ts ->
  exists pages, ts = acc ++ map notion_task pages.
Proof.
  induction fuel as [|fuel IH]; intros cursor acc ts H; simpl in H; [discriminate|].
  destruct (notion_post e _) as [msg|data]; [discriminate|].
  destruct (negb (Notion.has_more data)).
  - injection H as <-. eauto.
  - apply IH in H as (pages & ->). rewrite <- app_assoc, <- map_app. eauto.
Qed.

Lemma notion_filter_nil e : notion_filter e [] = [].
Proof. unfold notion_filter. destruct (SUBSET e); reflexivity. Qed.

Lemma fetchNotionTasks_ret e fuel ts :
  fetchNotionTasks e fuel = Ret ts ->
  exists pages, ts = notion_filter e (map notion_task pages).
Proof.
  unfold fetchNotionTasks. destruct (_ || _).
  - intros [= <-]. exists []. symmetry. apply notion_filter_nil.
  - destruct (notion_loop e fuel None []) as [tasks| |] eqn:E; try discriminate.
    intros [= <-]. apply notion_loop_ret in E as (pages & ->). eauto.
Qed.

Lemma github_filter_nil e : github_filter e [] = [].
Proof. unfold github_filter. destruct (SUBSET e); reflexivity. Qed.

(** Every payload is the two filtered, normalised sequences, the first
    source first, with the totals of that sequence. *)
Lemma main_wrote e fuel p :
  main e fuel = Wrote p ->
  exists items pages,
    tasks p = github_filter e (map github_task items)
              ++ notion_filter e (map notion_task pages)
    /\ totals p = totals_of (tasks p)
    /\ generatedAt p = clock e.
Proof.
  unfold main. intros H.
  destruct (fetchGithubTasks_cases e) as [[msg Hg]|[items Hg]]; rewrite Hg in H; simpl in H.
  - destruct (fetchNotionTasks e fuel) as [ts|msg'|] eqn:Hn; simpl in H; try discriminate.
    + apply fetchNotionTasks_ret in Hn as (pages & ->). injection H as <-.
      exists [], pages. simpl. rewrite github_filter_nil. auto.
    + injection H as <-. exists [], []. simpl.
      rewrite github_filter_nil, notion_filter_nil. auto.
  - destruct (fetchNotionTasks e fuel) as [ts|msg'|] eqn:Hn; simpl in H; try discriminate.
    + apply fetchNotionTasks_ret in Hn as (pages & ->). injection H as <-.
      exists items, pages. auto.
    + injection H as <-. exists items, []. simpl. rewrite notion_filter_nil. auto.
Qed.

(** The fuel only bounds the number of requests: once the workspace-database
    fetch has settled, more fuel gives the same result. *)
Lemma notion_loop_more_fuel e fuel k : forall cursor acc,
  notion_loop e fuel cursor acc <> Pending ->
  notion_loop e (fuel + k) cursor acc = notion_loop e fuel cursor acc.
Proof.
  induction fuel as [|fuel IH]; intros cursor acc H; simpl in *; [congruence|].
  destruct (notion_post e _) as [msg|data]; [reflexivity|].
  destruct (negb (Notion.has_more data)); [reflexivity|]. apply IH, H.
Qed.

Lemma main_more_fuel e fuel k p :
  main e fuel = Wrote p -> main e (fuel + k) = Wrote p.
Proof.
  unfold main, fetchNotionTasks. intros H.
  destruct (_ || _); [exact H|].
  rewrite notion_loop_more_fuel; [exact H|].
  intros E. rewrite E in H. destruct (catch_empty (fetchGithubTasks e)); discriminate.
Qed.

Lemma Forall_List_filter {A} (P : A -> Prop) f l :
  Forall P l -> Forall P (List.filter f l).
Proof.
  rewrite !List.Forall_forall. intros H x [Hx _]%filter_In. auto.
Qed.

(** A property of every normalised record holds of every task of a
    payload. *)
Lemma main_tasks_Forall (P : Task -> Prop) e fuel p :
  (forall it, P (github_task it)) -> (forall pg, P (notion_task pg)) ->
  main e fuel = Wrote p -> Forall P (tasks p).
Proof.
  intros Hg Hn (items & pages & -> & _)%main_wrote.
  apply Forall_app. split.
  - unfold github_filter. destruct (SUBSET e); [apply Forall_List_filter|];
      apply Forall_map, Forall_forall; auto.
  - unfold notion_filter. destruct (SUBSET e); [apply Forall_List_filter|];
      apply Forall_map, Forall_forall; auto.
Qed.

(** ** Facts about one normalised record *)

Ltac case_if :=
  match goal with
  | |- context [if ?b then _ else _] => destruct b eqn:?
  end.

Lemma github_task_status it : status_ok (github_task it).
Proof. unfold status_ok. simpl. case_if; auto. Qed.

Lemma notion_task_status pg : status_ok (notion_task pg).
Proof. unfold status_ok. simpl. case_if; auto. Qed.

Lemma github_task_points it : Num.leb Num.one (Task.points (github_task it)) = true.
Proof. apply parsePoints_ge_1. Qed.

Lemma notion_task_points pg : Num.leb Num.one (Task.points (notion_task pg)) = true.
Proof.
  simpl. apply max_one_ge.
  destruct (Num.truthy _) eqn:E; [|reflexivity].
  destruct (Js.toNumber _); [discriminate| | |]; reflexivity.
Qed.

Lemma github_task_tags it : length (Task.tags (github_task it)) <= 6.
Proof. simpl. unfold takeTags. rewrite length_firstn. lia. Qed.

Lemma notion_task_tags pg : length (Task.tags (notion_task pg)) <= 6.
Proof.
  simpl. destruct (Js.or _ _); simpl; try lia. rewrite length_firstn. lia.
Qed.

(** ** Totals *)

Lemma filter_ext_Forall {A} (P : A -> Prop) (f g : A -> bool) l :
  Forall P l -> (forall x, P x -> f x = g x) -> List.filter f l = List.filter g l.
Proof.
  intros Hl Hfg. induction Hl as [|x l Hx _ IH]; simpl; [reflexivity|].
  rewrite (Hfg x Hx), IH. reflexivity.
Qed.

Lemma not_done_is_open ts :
  Forall status_ok ts ->
  List.filter (fun t => negb (is_done t)) ts
  = List.filter (fun t => String.eqb (Task.status t) "open") ts.
Proof.
  intros H. apply (filter_ext_Forall status_ok); [exact H|].
  intros t [Ht|Ht]; unfold is_done; rewrite Ht; reflexivity.
Qed.

Lemma filter_partition_length {A} (f : A -> bool) l :
  length (List.filter (fun x => negb (f x)) l) + length (List.filter f l) = length l.
Proof.
  induction l as [|x l IH]; simpl; [reflexivity|].
  destruct (f x); simpl; lia.
Qed.

Lemma fold_points_truthy ts : forall acc,
  Forall (fun t => Num.truthy (Task.points t) = true) ts ->
  fold_left (fun s t => Num.add s (if Num.truthy (Task.points t)
                                   then Task.points t else Num.zero)) ts acc
  = fold_left (fun s t => Num.add s (Task.points t)) ts acc.
Proof.
  induction ts as [|t ts IH]; intros acc H; simpl; [reflexivity|].
  inversion H as [|? ? Ht Hts]; subst. rewrite Ht. apply IH, Hts.
Qed.

Lemma main_points_truthy e fuel p :
  main e fuel = Wrote p ->
  Forall (fun t => Num.truthy (Task.points t) = true) (tasks p).
Proof.
  apply main_tasks_Forall; intros; apply leb_one_truthy;
    [apply github_task_points|apply notion_task_points].
Qed.

(** ** A sample run *)

Example script_without_token :
  script (mkEnv None None None None None Sample.gh_two Sample.notion_one Sample.stamp) 1
  = Exit 2.
Proof. reflexivity. Qed.

Example run_full_totals :
  match main Sample.env_full 1 with
  | Wrote p => totals p = [("open", VNum (Num.of_Z 1)); ("done", VNum (Num.of_Z 2));
                           ("xp", VNum (Num.of_Z 6))]
               /\ map Task.progress (tasks p) = [Num.zero; Num.one; Num.Fin (40 / 100)]
  | _ => False
  end.
Proof. vm_compute. split; reflexivity. Qed.

(** ** C10: the two counts add up *)

(** C10.  For every run that writes a payload, [totals.open] plus
    [totals.done] is the length of [tasks]: every task has status "open" or
    "done", [open] counts the former and [done] the latter. *)
Theorem totals_open_plus_done e fuel p :
  main e fuel = Wrote p ->
  exists n_open n_done,
    field "open" (totals p) = Some (VNum (Num.of_nat n_open))
    /\ field "done" (totals p) = Some (VNum (Num.of_nat n_done))
    /\ n_open = count_status "open" (tasks p)
    /\ n_done = count_status "done" (tasks p)
    /\ n_open + n_done = length (tasks p)
    /\ Forall status_ok (tasks p).
Proof.
  intros H.
  assert (Hst : Forall status_ok (tasks p)).
  { revert H. apply main_tasks_Forall; [apply github_task_status|apply notion_task_status]. }
  apply main_wrote in H as (_ & _ & _ & -> & _).
  exists (count_status "open" (tasks p)), (count_status "done" (tasks p)).
  unfold count_status. rewrite <- (not_done_is_open _ Hst).
  repeat split; try reflexivity; [|exact Hst].
  apply (filter_partition_length is_done).
Qed.

Lemma totals_open_plus_done_witness :
  main Sample.env_full 1 = Wrote Sample.payload_full
  /\ exists n_open n_done,
       field "open" (totals Sample.payload_full) = Some (VNum (Num.of_nat n_open))
       /\ field "done" (totals Sample.payload_full) = Some (VNum (Num.of_nat n_done))
       /\ n_open = count_status "open" (tasks Sample.payload_full)
       /\ n_done = count_status "done" (tasks Sample.payload_full)
       /\ n_open + n_done = length (tasks Sample.payload_full)
       /\ Forall status_ok (tasks Sample.payload_full).
Proof.
  assert (H : main Sample.env_full 1 = Wrote Sample.payload_full) by (vm_compute; reflexivity).
  split; [exact H|exact (totals_open_plus_done Sample.env_full 1 Sample.payload_full H)].
Defined.

(** ** C1: the members of [totals] *)

(** C1 (as amended).  For every run that writes a payload, the [totals]
    object has exactly the members [open], [done] and [xp], in that order:
    [open] is the number of tasks whose status is not "done", [done] the
    number of tasks whose status is "done", and [xp] the sum of the points
    of the tasks whose status is "done". *)
Theorem totals_members e fuel p :
  main e fuel = Wrote p ->
  keys (totals p) = ["open"; "done"; "xp"]
  /\ field "open" (totals p)
     = Some (VNum (Num.of_nat (length (List.filter (fun t => negb (is_done t)) (tasks p)))))
  /\ field "done" (totals p)
     = Some (VNum (Num.of_nat (length (List.filter is_done (tasks p)))))
  /\ field "xp" (totals p) = Some (VNum (sum_points (List.filter is_done (tasks p)))).
Proof.
  intros H. pose proof (main_points_truthy _ _ _ H) as Hpts.
  apply main_wrote in H as (_ & _ & _ & -> & _).
  repeat split. unfold totals_of, field, sum_points. simpl.
  rewrite fold_points_truthy; [reflexivity|].
  apply Forall_List_filter, Hpts.
Qed.

Lemma totals_members_witness :
  main Sample.env_full 1 = Wrote Sample.payload_full
  /\ keys (totals Sample.payload_full) = ["open"; "done"; "xp"]
  /\ field "open" (totals Sample.payload_full)
     = Some (VNum (Num.of_nat
          (length (List.filter (fun t => negb (is_done t)) (tasks Sample.payload_full)))))
  /\ field "done" (totals Sample.payload_full)
     = Some (VNum (Num.of_nat (length (List.filter is_done (tasks Sample.payload_full)))))
  /\ field "xp" (totals Sample.payload_full)
     = Some (VNum (sum_points (List.filter is_done (tasks Sample.payload_full)))).
Proof.
  assert (H : main Sample.env_full 1 = Wrote Sample.payload_full) by (vm_compute; reflexivity).
  split; [exact H|exact (totals_members Sample.env_full 1 Sample.payload_full H)].
Defined.

(** The payload of the sample run has no member [score]. *)
Lemma totals_without_score :
  main Sample.env_full 1 = Wrote Sample.payload_full
  /\ field "score" (totals Sample.payload_full) = None
  /\ keys (totals Sample.payload_full) <> ["open"; "done"; "score"].
Proof. vm_compute. repeat split; congruence. Qed.

(** ** C2: a failed or unconfigured source contributes nothing *)

Lemma contributes_github e : exists gh, contributes (fetchGithubTasks e) gh.
Proof.
  destruct (fetchGithubTasks_cases e) as [[msg ->]|[items ->]]; eauto using contributes.
Qed.

Lemma main_contributions e fuel gh no :
  contributes (fetchGithubTasks e) gh -> contributes (fetchNotionTasks e fuel) no ->
  main e fuel = Wrote (mkPayload (clock e) (totals_of (gh ++ no)) (gh ++ no)).
Proof.
  unfold main. intros Hg Hn. inversion Hg; inversion Hn; reflexivity.
Qed.

Lemma notion_unavailable_contributes e fuel :
  notion_unavailable e fuel -> contributes (fetchNotionTasks e fuel) [].
Proof.
  intros [H|[H|[msg ->]]]; [| |constructor];
    unfold fetchNotionTasks; rewrite H; simpl; rewrite ?orb_true_r; constructor.
Qed.

(** C2.  A source whose fetch fails contributes the empty sequence and the
    run still writes a payload: the tasks are the contributions of the two
    sources, the code-hosting one first.  In particular, when the
    workspace-database credentials are absent or its fetch fails, the tasks
    are exactly what the code-hosting fetcher returned (nothing, if that
    fetch failed too), and the totals are computed from that sequence
    alone. *)
Theorem degrade_on_failure e fuel :
  (forall gh no,
     contributes (fetchGithubTasks e) gh -> contributes (fetchNotionTasks e fuel) no ->
     main e fuel = Wrote (mkPayload (clock e) (totals_of (gh ++ no)) (gh ++ no)))
  /\ (notion_unavailable e fuel ->
      exists gh,
        contributes (fetchGithubTasks e) gh
        /\ contributes (fetchNotionTasks e fuel) []
        /\ main e fuel = Wrote (mkPayload (clock e) (totals_of gh) gh)).
Proof.
  split; [apply main_contributions|].
  intros Hn%notion_unavailable_contributes.
  destruct (contributes_github e) as [gh Hg]. exists gh.
  repeat split; [exact Hg|exact Hn|].
  rewrite (main_contributions e fuel gh [] Hg Hn), app_nil_r. reflexivity.
Qed.

Lemma degrade_on_failure_witness :
  notion_unavailable Sample.env_notion_down 1
  /\ exists gh,
       contributes (fetchGithubTasks Sample.env_notion_down) gh
       /\ contributes (fetchNotionTasks Sample.env_notion_down 1) []
       /\ main Sample.env_notion_down 1
          = Wrote (mkPayload (clock Sample.env_notion_down) (totals_of gh) gh).
Proof.
  assert (H : notion_unavailable Sample.env_notion_down 1).
  { right. right. exists "Notion 503". vm_compute. reflexivity. }
  split; [exact H|exact (proj2 (degrade_on_failure Sample.env_notion_down 1) H)].
Defined.

Example run_notion_down :
  match main Sample.env_notion_down 1 with
  | Wrote p => map Task.source (tasks p) = ["github"; "github"]
               /\ totals p = [("open", VNum (Num.of_Z 1)); ("done", VNum (Num.of_Z 1));
                              ("xp", VNum (Num.of_Z 1))]
  | _ => False
  end.
Proof. vm_compute. split; reflexivity. Qed.

(** ** C3: the repository allow-list *)

Lemma split_chars_nonempty sep l : forall cur,
  exists part parts, Str.split_chars sep cur l = part :: parts.
Proof.
  induction l as [|c l IH]; intros cur; simpl; [eauto|].
  destruct (Ascii.eqb c sep); eauto.
Qed.

Lemma split_nonempty sep s : exists part parts, Str.split sep s = part :: parts.
Proof. apply split_chars_nonempty. Qed.

Lemma In_List_filter {A} (f : A -> bool) l x : In x (List.filter f l) <-> In x l /\ f x = true.
Proof. apply filter_In. Qed.

(** C3 (as amended).  With an allow-list configured, a workspace-database
    record is kept if and only if it has no repo association or the list
    contains its repo, and a code-hosting record is kept if and only if the
    list contains its repo; so a record with a repo association is kept, in
    either source, exactly when the list contains that repo (the entries
    are the trimmed, comma-separated parts of the setting, compared as
    strings).  With no allow-list every record is kept. *)
Theorem allow_list_filter e :
  match SUBSET e with
  | Some allow =>
      (exists r, r ∈ allow)
      /\ (forall r, r ∈ allow <-> In r (map Str.trim (Str.split "," (SUBSET_RAW e))))
      /\ (forall ts t, In t (notion_filter e ts) <->
             In t ts /\ (no_repo t = true \/ exists r, Task.repo t = Some r /\ r ∈ allow))
      /\ (forall ts t, In t (github_filter e ts) <->
             In t ts /\ exists r, Task.repo t = Some r /\ r ∈ allow)
  | None => forall ts, notion_filter e ts = ts /\ github_filter e ts = ts
  end.
Proof.
  unfold notion_filter, github_filter.
  destruct (SUBSET e) as [allow|] eqn:E; [|auto].
  assert (Hhas : forall repo, subset_has allow repo = true <->
                              exists r, repo = Some r /\ r ∈ allow).
  { intros [r|]; simpl.
    - rewrite bool_decide_eq_true. split; [eauto|]. intros (r' & [= <-] & H). exact H.
    - split; [discriminate|]. intros (r' & [=] & _). }
  assert (Hmem : forall r, r ∈ allow <-> In r (map Str.trim (Str.split "," (SUBSET_RAW e)))).
  { intros r. unfold SUBSET in E. destruct (Str.nonempty _); [|discriminate].
    injection E as <-. rewrite elem_of_list_to_set. apply list_elem_of_In. }
  split; [|split; [exact Hmem|split]].
  - destruct (split_nonempty "," (SUBSET_RAW e)) as (part & parts & Hsplit).
    exists (Str.trim part). apply Hmem. rewrite Hsplit. left. reflexivity.
  - intros ts t. rewrite In_List_filter, orb_true_iff, Hhas. reflexivity.
  - intros ts t. rewrite In_List_filter, Hhas. reflexivity.
Qed.

(** A code-hosting record without a repo association is dropped by an
    allow-list that does not contain the empty name. *)
Lemma github_record_without_repo_dropped :
  SUBSET_RAW Sample.env_subset = "repoA"
  /\ no_repo (github_task Sample.item_no_repo) = true
  /\ github_filter Sample.env_subset [github_task Sample.item_no_repo] = [].
Proof. vm_compute. repeat split. Qed.

Example allow_list_sample :
  match main Sample.env_subset 1 with
  | Wrote p => map Task.repo (tasks p) = [Some "repoA"; None]
  | _ => False
  end.
Proof. vm_compute. reflexivity. Qed.

(** ** C4: progress of a workspace-database record *)

Lemma normProgress_fin v :
  exists x, normProgress (VNum (Num.Fin v)) = Some x
            /\ Num.eqb x (Num.Fin (threshold_progress v)) = true.
Proof.
  unfold normProgress, threshold_progress, Js.toNumber, Num.gtb, percent_threshold.
  destruct (Qlt_le_dec (1001 # 1000) v) as [Hlt|Hle].
  - apply ltb_fin in Hlt. rewrite Hlt. eexists. split; [reflexivity|].
    change (Num.div (Num.Fin v) Num.hundred) with (Num.Fin (v / 100)).
    apply max_min_clamp.
  - apply ltb_fin_false in Hle. rewrite Hle. eexists. split; [reflexivity|].
    apply max_min_clamp.
Qed.

(** C4 (as amended).  When the Progress property of a page is the number
    [v], the progress of the task is [clamp(v/100, 0, 1)] if [v > 1.001] and
    [clamp(v, 0, 1)] otherwise; when the property supplies no value, the
    progress is 1 for a done record and 0 otherwise. *)
Theorem notion_progress pg :
  match prop (page_props pg) "Progress" with
  | VNum (Num.Fin v) =>
      Num.eqb (Task.progress (notion_task pg)) (Num.Fin (threshold_progress v)) = true
  | VUndef =>
      Task.progress (notion_task pg)
      = if String.eqb (Task.status (notion_task pg)) "done" then Num.one else Num.zero
  | _ => True
  end.
Proof.
  destruct (prop (page_props pg) "Progress") as [| |[| | |v]|s|l] eqn:E; try exact I.
  - simpl. rewrite E. simpl. case_if; reflexivity.
  - destruct (normProgress_fin v) as (x & Hx & Heq).
    simpl. rewrite E, Hx. exact Heq.
Qed.

(** Between 1 and 1.001 the value is not rescaled: 1.0005 becomes 1, where
    the rule of the specification gives 0.010005. *)
Lemma progress_just_over_one :
  prop (page_props Sample.page_just_over_one) "Progress" = VNum (Num.Fin (10005 # 10000))
  /\ Num.eqb (Task.progress (notion_task Sample.page_just_over_one)) Num.one = true
  /\ Num.eqb (Num.Fin (spec_progress (10005 # 10000))) (Num.Fin (10005 # 1000000)) = true
  /\ Num.eqb (Task.progress (notion_task Sample.page_just_over_one))
              (Num.Fin (spec_progress (10005 # 10000))) = false.
Proof. vm_compute. repeat split. Qed.

(** ** C5: tags of a code-hosting record *)

Lemma filter_tags names :
  Forall (fun n => n_points_label n = true -> p_or_points_label n = true) names ->
  List.filter (fun n => negb (Re.test re_points_tag (Str.toLowerCase n)))
    (List.filter (fun n => negb (Re.test re_p_tag (Str.toLowerCase n)))
       (List.filter Str.nonempty names))
  = List.filter
      (fun n => Str.nonempty n && negb (p_or_points_label n || n_points_label n)) names.
Proof.
  induction 1 as [|n names Hn _ IH]; [reflexivity|].
  unfold p_or_points_label in *. simpl.
  destruct (Str.nonempty n); simpl; [|exact IH].
  destruct (Re.test re_p_tag _) eqn:E1; simpl; [exact IH|].
  destruct (Re.test re_points_tag _) eqn:E2; simpl; [exact IH|].
  destruct (n_points_label n); simpl.
  - discriminate (Hn eq_refl).
  - f_equal. exact IH.
Qed.

(** C5 (as amended).  For a label list in which no name matches the
    pattern [<digits>\s*points?] alone, the tags are the non-empty label
    names, in the original order, minus those whose lower-cased form matches
    [\bp[:= -]?\d+\b] or [\bpoints?[:= -]?\d+\b], cut to the first six. *)
Theorem takeTags_spec labels :
  (forall l, In l labels -> n_points_label (label_name l) = true ->
             p_or_points_label (label_name l) = true) ->
  takeTags labels
  = firstn 6
      (List.filter
         (fun n => Str.nonempty n && negb (p_or_points_label n || n_points_label n))
         (map label_name labels)).
Proof.
  intros H. unfold takeTags. f_equal. apply filter_tags.
  apply List.Forall_forall. intros n (l & <- & Hl)%in_map_iff. exact (H l Hl).
Qed.

Lemma takeTags_spec_witness :
  (forall l, In l [LabelStr "bug"; LabelStr "P:3"; LabelObj None; LabelStr "3 points p:3"] ->
             n_points_label (label_name l) = true ->
             p_or_points_label (label_name l) = true)
  /\ takeTags [LabelStr "bug"; LabelStr "P:3"; LabelObj None; LabelStr "3 points p:3"] = ["bug"].
Proof.
  assert (H : forall l,
             In l [LabelStr "bug"; LabelStr "P:3"; LabelObj None; LabelStr "3 points p:3"] ->
             n_points_label (label_name l) = true ->
             p_or_points_label (label_name l) = true).
  { intros l [<-|[<-|[<-|[<-|[]]]]]; vm_compute; congruence. }
  split; [exact H|].
  exact (takeTags_spec
           [LabelStr "bug"; LabelStr "P:3"; LabelObj None; LabelStr "3 points p:3"] H).
Defined.

(** A label with an empty name matches no pattern and is still left out. *)
Lemma empty_label_left_out :
  takeTags [LabelStr ""] = [] /\ spec_tags [LabelStr ""] = [""].
Proof. vm_compute. split; reflexivity. Qed.

Example takeTags_n_points :
  takeTags [LabelStr "5 points"] = ["5 points"] /\ parsePoints [LabelStr "5 points"] = Num.of_Z 5.
Proof. vm_compute. split; reflexivity. Qed.

(** ** C6: titles *)

Lemma text_or_nonempty s d : Str.nonempty d = true -> Str.nonempty (text_or s d) = true.
Proof. intros Hd. unfold text_or. destruct (Str.nonempty s) eqn:E; assumption. Qed.

Lemma notion_task_title pg :
  Task.title (notion_task pg) = spec_title (page_props pg !! "Name").
Proof.
  simpl. unfold prop, spec_title, plain, text_or, Js.or.
  destruct (page_props pg !! "Name") as [[texts|texts|[u|]|[s|]|[s|]|[l|]|[n|]|[]|]|];
    simpl; try reflexivity;
    match goal with
    | |- context [Str.nonempty ?x] => destruct (Str.nonempty x) eqn:E; simpl; rewrite ?E
    | |- context [Num.truthy ?x] => destruct (Num.truthy x)
    end; reflexivity.
Qed.

(** C6 (as amended).  The title of a workspace-database task comes from
    the Name property, with the placeholder "Untitled" where the property
    gives nothing (absent, of another type, empty text, null, 0, NaN, an
    unticked checkbox); it is never the empty string.  When Name is a
    title, rich-text, url, select or status property the title is a
    non-empty string; a multi-select, a number that is not 0 or a ticked
    checkbox is passed on as it is.  The code-hosting normaliser copies
    the title of the item as it is. *)
Theorem task_titles pg it :
  Task.title (notion_task pg) = spec_title (page_props pg !! "Name")
  /\ Task.title (notion_task pg) <> VStr ""
  /\ (passed_on (page_props pg !! "Name") = false ->
      exists s, Task.title (notion_task pg) = VStr s /\ Str.nonempty s = true)
  /\ Task.title (github_task it) = VStr (Item.title it).
Proof.
  rewrite notion_task_title. split; [reflexivity|]. split; [|split; [|reflexivity]].
  - unfold spec_title, text_or.
    destruct (page_props pg !! "Name") as [[texts|texts|[u|]|[s|]|[s|]|[l|]|[n|]|[]|]|];
      try discriminate;
      match goal with |- context [if ?b then _ else _] => destruct b eqn:E end;
      try discriminate; intros [= H]; rewrite H in E; discriminate.
  - unfold spec_title, passed_on.
    destruct (page_props pg !! "Name") as [[texts|texts|[u|]|[s|]|[s|]|[l|]|[n|]|[]|]|];
      try discriminate; intros _;
      eexists; (split; [reflexivity|]); try reflexivity; apply text_or_nonempty; reflexivity.
Qed.

Lemma task_titles_witness :
  passed_on (page_props Sample.page_docs !! "Name") = false
  /\ (exists s, Task.title (notion_task Sample.page_docs) = VStr s /\ Str.nonempty s = true)
  /\ Task.title (notion_task Sample.page_docs)
     = spec_title (page_props Sample.page_docs !! "Name")
  /\ Task.title (github_task Sample.issue_bug) = VStr "Crash on start".
Proof.
  assert (H : passed_on (page_props Sample.page_docs !! "Name") = false) by reflexivity.
  pose proof (task_titles Sample.page_docs Sample.issue_bug) as (Hn & _ & Hs & Hg).
  split; [exact H|]. split; [exact (Hs H)|]. split; [exact Hn|exact Hg].
Defined.

(** An item with an empty title gives a task with an empty title, and a
    page whose Name is a multi-select without options gives a task whose
    title is an empty array. *)
Lemma titles_without_text :
  Task.title (github_task Sample.item_untitled) = VStr ""
  /\ Js.truthy (Task.title (github_task Sample.item_untitled)) = false
  /\ Task.title (notion_task Sample.page_name_options) = VArr [].
Proof. vm_compute. repeat split. Qed.

Example notion_titles_1 :
  map (fun pr => Task.title (notion_task (Page.mk (Some (<["Name" := pr]> ∅)) VUndef)))
    [PTitle [" Write "; "docs "]; PRichText [" "]; PSelect (Some "Later"); PUrl (Some "");
     PMultiSelect (Some ["a"; "b"]); PNumber (Some (Num.of_Z 7)); PNumber (Some Num.zero);
     PCheckbox true; PCheckbox false; POther]
  = [VStr "Write docs"; VStr "Untitled"; VStr "Later"; VStr "Untitled";
     VArr ["a"; "b"]; VNum (Num.of_Z 7); VStr "Untitled";
     VBool true; VStr "Untitled"; VStr "Untitled"].
Proof. vm_compute. reflexivity. Qed.

(** ** C7: types *)

Lemma guessType_cases labels fallback :
  In (guessType labels fallback) ["bug"; "docs"; "feature"; "infra"; "task"; fallback].
Proof.
  unfold guessType. repeat case_if; simpl; tauto.
Qed.

Lemma notion_task_type pg :
  Task.type (notion_task pg) = spec_type (page_props pg !! "Type").
Proof.
  simpl. unfold prop, spec_type, plain, text_or, Js.or.
  destruct (page_props pg !! "Type") as [[texts|texts|[u|]|[s|]|[s|]|[l|]|[n|]|[]|]|];
    simpl; try reflexivity;
    match goal with
    | |- context [Str.nonempty ?x] => destruct (Str.nonempty x) eqn:E; simpl; rewrite ?E
    | |- context [Num.truthy ?x] => destruct (Num.truthy x)
    end; reflexivity.
Qed.

(** C7 (as amended).  The type of a code-hosting task is one of bug, docs,
    feature, infra, task, pr and issue.  The type of a workspace-database
    task is the lower-cased text of the value of the Type property,
    whatever it is: the text of a title, rich-text, url, select or status
    property, the option names of a multi-select joined by commas, the
    digits of a number, "true" for a ticked checkbox; it is "task" when
    the property gives nothing (absent, of another type, empty text, null,
    0, NaN, an unticked checkbox). *)
Theorem task_types_by_source pg it :
  In (Task.type (github_task it)) task_types
  /\ Task.type (notion_task pg) = spec_type (page_props pg !! "Type").
Proof.
  split; [|apply notion_task_type].
  simpl. pose proof (guessType_cases
    (match Item.labels it with Some ls => ls | None => [] end)
    (if Item.pull_request it then "pr" else "issue")) as H.
  unfold task_types. destruct (Item.pull_request it); simpl in *; tauto.
Qed.

Lemma task_types_by_source_witness :
  In (Task.type (github_task Sample.issue_bug)) task_types
  /\ Task.type (notion_task Sample.page_type_options)
     = spec_type (page_props Sample.page_type_options !! "Type")
  /\ spec_type (page_props Sample.page_type_options !! "Type") = "bug,fix".
Proof.
  pose proof (task_types_by_source Sample.page_type_options Sample.issue_bug) as (Hg & Hn).
  split; [exact Hg|]. split; [exact Hn|reflexivity].
Defined.

Example notion_types_1 :
  map (fun pr => Task.type (notion_task (Page.mk (Some (<["Type" := pr]> ∅)) VUndef)))
    [PSelect (Some "Epic"); PRichText [" Bug "]; PSelect None; PStatus (Some "");
     PMultiSelect (Some ["Bug"; "Fix"]); PMultiSelect (Some []);
     PNumber (Some (Num.of_Z 3)); PNumber (Some Num.zero);
     PCheckbox true; PCheckbox false; POther]
  = ["epic"; "bug"; "task"; "task"; "bug,fix"; ""; "3"; "task"; "true"; "task"; "task"].
Proof. vm_compute. reflexivity. Qed.

(** The type of a page whose Type is "Epic" is "epic", outside the seven. *)
Lemma notion_type_outside_enum :
  Task.type (notion_task Sample.page_epic) = "epic"
  /\ existsb (String.eqb (Task.type (notion_task Sample.page_epic))) task_types = false.
Proof. vm_compute. split; reflexivity. Qed.

(** ** C8: bounds on points, progress and tags *)

(** What does hold of every task of a payload: the points are at least 1,
    there are at most six tags, and the progress is between 0 and 1 or is
    NaN. *)
Lemma github_task_progress it : in_unit_interval (Task.progress (github_task it)) = true.
Proof. simpl. case_if; reflexivity. Qed.

Lemma notion_task_progress pg :
  in_unit_interval (Task.progress (notion_task pg)) = true
  \/ Task.progress (notion_task pg) = Num.NaN.
Proof.
  assert (H : forall x,
            in_unit_interval (Num.max Num.zero (Num.min Num.one x)) = true
            \/ Num.max Num.zero (Num.min Num.one x) = Num.NaN).
  { intros x. destruct (Num.is_nan x) eqn:E.
    - right. destruct x; try discriminate. reflexivity.
    - left. apply andb_true_iff, max_min_range, E. }
  simpl. unfold normProgress.
  destruct (prop (page_props pg) "Progress"); [left; case_if; reflexivity| | | |];
    case_if; apply H.
Qed.

Lemma task_bounds e fuel p :
  main e fuel = Wrote p ->
  Forall (fun t => Num.leb Num.one (Task.points t) = true
                   /\ length (Task.tags t) <= 6
                   /\ (in_unit_interval (Task.progress t) = true
                       \/ Task.progress t = Num.NaN))
    (tasks p).
Proof.
  apply main_tasks_Forall; intros; repeat split;
    auto using github_task_points, notion_task_points, github_task_tags, notion_task_tags,
      notion_task_progress, github_task_progress.
Qed.

(** C8, at the failing input.  A page whose Progress is a text property
    reading "half" gives a task whose progress is NaN: the comparison with
    1.001 is false, [Math.min(1, "half")] is NaN, and so is [Math.max] of it.
    The task is part of the payload; its progress is not between 0 and 1. *)
Theorem progress_of_text_property :
  prop (page_props Sample.page_text_progress) "Progress" = VStr "half"
  /\ Task.progress (notion_task Sample.page_text_progress) = Num.NaN
  /\ in_unit_interval (Task.progress (notion_task Sample.page_text_progress)) = false
  /\ match main Sample.env_text_progress 1 with
     | Wrote p => map Task.progress (tasks p) = [Num.zero; Num.one; Num.NaN]
     | _ => False
     end.
Proof. vm_compute. repeat split. Qed.

(** ** C9: pagination of a search *)

(** One turn of the loop. *)
Lemma search_from_step e q left page st :
  search_from e q (S left) page st
  = let req := Gh.mk_request q per_page page in
    match gh_server e req with
    | Failed msg => (Throw msg, logged st req)
    | Body data =>
        match Gh.items data with
        | None | Some [] => (Ret tt, logged st req)
        | Some items =>
            if (length items <? per_page)%nat then (Ret tt, pushed (logged st req) items)
            else search_from e q left (S page) (pushed (logged st req) items)
        end
    end.
Proof.
  cbn [search_from]. unfold_ghm. unfold gh_get. cbv zeta.
  destruct (gh_server e _) as [msg|data]; [reflexivity|].
  destruct (Gh.items data) as [[|x l]|]; try reflexivity.
  destruct (_ <? _)%nat; reflexivity.
Qed.

Lemma page_items_bound e req :
  page_size_respected e -> length (page_items e req) <= Gh.per_page req.
Proof.
  intros Hsize. unfold page_items.
  destruct (gh_server e req) as [msg|data] eqn:E; [simpl; lia|].
  destruct (Gh.items data) as [items|] eqn:I; [|simpl; lia].
  exact (Hsize _ _ _ E I).
Qed.

Lemma page_requests_bound e q n :
  n <= 2 -> page_size_respected e ->
  Forall (fun req => length (page_items e req) <= 100) (page_requests q n)
  /\ length (concat (map (page_items e) (page_requests q n))) <= 200.
Proof.
  intros Hn Hsize.
  assert (H : forall k, length (page_items e (Gh.mk_request q 100 k)) <= 100).
  { intros k. apply (page_items_bound e (Gh.mk_request q 100 k) Hsize). }
  split.
  - unfold page_requests. induction (seq 1 n) as [|k l IH]; constructor; auto.
  - pose proof (H 1) as H1. pose proof (H 2) as H2.
    destruct n as [|[|[|n]]]; [| | |lia]; cbn [page_requests seq map concat];
      rewrite ?length_app; cbn [length]; lia.
Qed.

(** C9 (as amended).  A search sends one or two requests, for pages 1 and 2
    with 100 items per page, and appends every item of the pages it
    receives to the accumulated items.  Page 2 is requested only when
    page 1 came back with at least 100 items: a page with fewer than 100
    items, or none, ends the search.  When the server returns no more
    than the items asked for, that is at most two pages of at most 100
    items, at most 200 records. *)
Theorem search_pages e q st :
  exists n : nat,
    (n = 1 \/ n = 2)
    /\ GhM.log (snd (search e q st)) = GhM.log st ++ page_requests q n
    /\ GhM.all (snd (search e q st))
       = GhM.all st ++ concat (map (page_items e) (page_requests q n))
    /\ (n = 2 <-> full_page (gh_server e (Gh.mk_request q 100 1)))
    /\ (page_size_respected e ->
        Forall (fun req => length (page_items e req) <= 100) (page_requests q n)
        /\ length (concat (map (page_items e) (page_requests q n))) <= 200).
Proof.
  assert (Hone : forall st',
            GhM.log st' = GhM.log st ++ [Gh.mk_request q 100 1] ->
            GhM.all st' = GhM.all st ++ page_items e (Gh.mk_request q 100 1) ->
            ~ full_page (gh_server e (Gh.mk_request q 100 1)) ->
            exists n : nat,
              (n = 1 \/ n = 2)
              /\ GhM.log st' = GhM.log st ++ page_requests q n
              /\ GhM.all st'
                 = GhM.all st ++ concat (map (page_items e) (page_requests q n))
              /\ (n = 2 <-> full_page (gh_server e (Gh.mk_request q 100 1)))
              /\ (page_size_respected e ->
                  Forall (fun req => length (page_items e req) <= 100) (page_requests q n)
                  /\ length (concat (map (page_items e) (page_requests q n))) <= 200)).
  { intros st' Hlog Hall Hnot. exists 1. split; [auto|]. split; [exact Hlog|].
    split; [cbn; rewrite app_nil_r; exact Hall|].
    split; [split; [discriminate|tauto]|]. apply page_requests_bound. lia. }
  assert (Htwo : forall st',
            GhM.log st' = (GhM.log st ++ [Gh.mk_request q 100 1]) ++ [Gh.mk_request q 100 2] ->
            GhM.all st' = (GhM.all st ++ page_items e (Gh.mk_request q 100 1))
                          ++ page_items e (Gh.mk_request q 100 2) ->
            full_page (gh_server e (Gh.mk_request q 100 1)) ->
            exists n : nat,
              (n = 1 \/ n = 2)
              /\ GhM.log st' = GhM.log st ++ page_requests q n
              /\ GhM.all st'
                 = GhM.all st ++ concat (map (page_items e) (page_requests q n))
              /\ (n = 2 <-> full_page (gh_server e (Gh.mk_request q 100 1)))
              /\ (page_size_respected e ->
                  Forall (fun req => length (page_items e req) <= 100) (page_requests q n)
                  /\ length (concat (map (page_items e) (page_requests q n))) <= 200)).
  { intros st' Hlog Hall Hfull. exists 2. split; [auto|].
    split; [rewrite Hlog, <- app_assoc; reflexivity|].
    split; [cbn; rewrite app_nil_r, Hall, <- app_assoc; reflexivity|].
    split; [tauto|]. apply page_requests_bound. lia. }
  unfold search. rewrite search_from_step. cbv zeta. unfold per_page.
  unfold full_page, per_page in Hone, Htwo. unfold page_items in Hone, Htwo.
  destruct (gh_server e (Gh.mk_request q 100 1)) as [msg|d1] eqn:E1.
  { apply Hone; cbn; rewrite ?app_nil_r; auto. intros (? & ? & [=] & _). }
  destruct (Gh.items d1) as [[|x l1]|] eqn:I1.
  { apply Hone; cbn; rewrite ?app_nil_r; auto.
    intros (? & ? & [= <-] & Hi & Hlen). rewrite I1 in Hi. injection Hi as <-. cbn in Hlen. lia. }
  2:{ apply Hone; cbn; rewrite ?app_nil_r; auto.
      intros (? & ? & [= <-] & Hi & _). congruence. }
  destruct (Nat.ltb_spec (length (x :: l1)) 100) as [Hlt|Hge].
  { apply Hone; cbn [snd pushed logged GhM.all GhM.log]; auto.
    intros (? & ? & [= <-] & Hi & Hlen). rewrite I1 in Hi. injection Hi as <-. lia. }
  assert (Hfull : exists data items,
             Body d1 = Body data /\ Gh.items data = Some items /\ 100 <= length items).
  { exists d1, (x :: l1). auto. }
  rewrite search_from_step. cbv zeta. unfold per_page.
  destruct (gh_server e (Gh.mk_request q 100 2)) as [msg|d2] eqn:E2.
  { apply Htwo; cbn [snd pushed logged GhM.all GhM.log]; rewrite ?app_nil_r; auto. }
  destruct (Gh.items d2) as [[|y l2]|] eqn:I2.
  - apply Htwo; cbn [snd pushed logged GhM.all GhM.log]; rewrite ?app_nil_r; auto.
  - destruct (_ <? _)%nat; apply Htwo; cbn [snd pushed logged GhM.all GhM.log]; auto.
  - apply Htwo; cbn [snd pushed logged GhM.all GhM.log]; rewrite ?app_nil_r; auto.
Qed.

Lemma search_pages_witness :
  page_size_respected Sample.env_two_pages
  /\ exists n : nat,
       (n = 1 \/ n = 2)
       /\ GhM.log (snd (search Sample.env_two_pages Sample.issues_query (GhM.mk_state [] [])))
          = [] ++ page_requests Sample.issues_query n
       /\ GhM.all (snd (search Sample.env_two_pages Sample.issues_query (GhM.mk_state [] [])))
          = [] ++ concat (map (page_items Sample.env_two_pages)
                            (page_requests Sample.issues_query n))
       /\ Forall (fun req => length (page_items Sample.env_two_pages req) <= 100)
            (page_requests Sample.issues_query n)
       /\ length (concat (map (page_items Sample.env_two_pages)
                            (page_requests Sample.issues_query n))) <= 200.
Proof.
  assert (H : page_size_respected Sample.env_two_pages).
  { intros req data items Hreq Hitems. cbn in Hreq. unfold Sample.gh_two_pages in Hreq.
    destruct (Gh.page req =? 1)%nat; injection Hreq as <-; injection Hitems as <-;
      rewrite repeat_length; lia. }
  split; [exact H|].
  destruct (search_pages Sample.env_two_pages Sample.issues_query (GhM.mk_state [] []))
    as (n & Hn & Hlog & Hall & _ & Hbound).
  exists n. split; [exact Hn|]. split; [exact Hlog|]. split; [exact Hall|].
  exact (Hbound H).
Defined.

(** A server that answers every request with 150 items: the search keeps
    both pages whole, 300 records from two pages of 150. *)
Lemma oversized_pages_kept :
  length (page_items Sample.env_oversized (Gh.mk_request Sample.issues_query 100 1)) = 150
  /\ length (GhM.all (snd (search Sample.env_oversized Sample.issues_query
                             (GhM.mk_state [] [])))) = 300
  /\ GhM.log (snd (search Sample.env_oversized Sample.issues_query (GhM.mk_state [] [])))
     = page_requests Sample.issues_query 2.
Proof. vm_compute. repeat split. Qed.

Example search_two_pages :
  let st := snd (search Sample.env_two_pages Sample.issues_query (GhM.mk_state [] [])) in
  length (GhM.all st) = 103
  /\ GhM.log st = [Gh.mk_request Sample.issues_query 100 1;
                   Gh.mk_request Sample.issues_query 100 2].
Proof. vm_compute. split; reflexivity. Qed.

(** * Further properties *)

(** ** [parsePoints] *)

Lemma ltb_of_Z a b : Num.ltb (Num.of_Z a) (Num.of_Z b) = (a <? b)%Z.
Proof.
  unfold Num.of_Z. destruct (Z.ltb_spec a b) as [H|H].
  - apply ltb_fin. rewrite <- Zlt_Qlt. exact H.
  - apply ltb_fin_false. rewrite <- Zle_Qle. exact H.
Qed.

Lemma max_one_of_Z z : Num.max Num.one (Num.of_Z z) = Num.of_Z (Z.max 1 z).
Proof.
  rewrite max_not_nan by reflexivity. unfold Num.one. rewrite ltb_of_Z.
  destruct (Z.ltb_spec 1 z); f_equal; lia.
Qed.

Lemma digits_val_nonneg ds :
  forallb Str.is_digit ds = true -> (0 <= Str.digits_val ds)%Z.
Proof.
  assert (H : forall l acc, (0 <= acc)%Z -> forallb Str.is_digit l = true ->
              (0 <= fold_left (fun a c => 10 * a + Str.digit_val c) l acc)%Z).
  { induction l as [|c l IH]; simpl; intros acc Hacc H; [exact Hacc|].
    apply andb_prop in H as [Hc Hl]. apply IH; [|exact Hl].
    unfold Str.is_digit in Hc. apply andb_prop in Hc as [Hc _]. apply Nat.leb_le in Hc.
    unfold Str.digit_val. lia. }
  intros Hds. apply H; [lia|exact Hds].
Qed.

(** Integers up to 2^53 are binary64 numbers. *)
Lemma round64_exact z : (0 <= z <= 2 ^ 53)%Z -> Num.round64 z = Num.of_Z z.
Proof.
  intros [H0 H1]. unfold Num.round64. destruct (Z.ltb_spec z 0) as [Hneg|_]; [lia|].
  destruct (Z.eq_dec z (2 ^ 53)%Z) as [->|Hne]; [vm_compute; reflexivity|].
  unfold Num.round64_pos. cbv zeta.
  destruct (Z.leb_spec (Z.log2 z - 52) 0) as [_|Hk]; [reflexivity|].
  exfalso. destruct (Z.eq_dec z 0%Z) as [->|Hz]; [simpl in Hk; lia|].
  assert (Z.log2 z < 53)%Z by (apply Z.log2_lt_pow2; lia). lia.
Qed.

Lemma parsePoints_match l rest cap :
  points_match (Str.toLowerCase (label_name l)) = Some cap ->
  exists ds, cap = Some ds /\ ds <> [] /\ forallb Str.is_digit ds = true
             /\ parsePoints (l :: rest)
                = Num.max Num.one (Num.round64 (Str.digits_val ds)).
Proof.
  intros H. destruct (points_match_good _ _ H) as (ds & -> & Hne & Hds).
  exists ds. repeat split; auto. simpl. rewrite H. simpl.
  rewrite parseInt_digits by assumption. reflexivity.
Qed.

(** X1.  [parsePoints] returns an integer that is at least 1, or Infinity
    when the digits of the label are too many for a binary64 number: never
    NaN, never a fraction, never less than 1. *)
Theorem parsePoints_integer labels :
  parsePoints labels = Num.PInf
  \/ exists z, (1 <= z)%Z /\ parsePoints labels = Num.of_Z z.
Proof.
  induction labels as [|l rest IH]; [right; exists 1%Z; split; [lia|reflexivity]|].
  destruct (points_match (Str.toLowerCase (label_name l))) as [cap|] eqn:E.
  - destruct (parsePoints_match l rest cap E) as (ds & _ & _ & Hds & ->).
    pose proof (digits_val_nonneg ds Hds) as H0. unfold Num.round64.
    destruct (Z.ltb_spec (Str.digits_val ds) 0) as [Hneg|_]; [lia|].
    destruct (round64_pos_cases (Str.digits_val ds)) as [->|[z' ->]]; [left; reflexivity|].
    right. rewrite max_one_of_Z. eexists. split; [|reflexivity]. lia.
  - simpl. rewrite E. exact IH.
Qed.

Example parsePoints_overflow :
  parsePoints [More.label_overflow] = Num.PInf
  /\ parsePoints [LabelStr "p:9007199254740993"] = Num.of_Z 9007199254740992.
Proof. vm_compute. split; reflexivity. Qed.

(** X2.  For labels with ASCII names, the first label that matches a
    pattern decides: labels that match no pattern are skipped (alone they
    give 1), and the labels after the first match are not looked at.  The
    value is the captured digits read as a decimal number and rounded to
    the nearest binary64 number, raised to 1 when it is 0; digits that
    denote at most 2^53 give exactly that number. *)
Theorem parsePoints_first_match pre :
  Forall ascii_name pre -> Forall no_points pre ->
  parsePoints pre = Num.one
  /\ forall l rest cap,
       ascii_name l ->
       points_match (Str.toLowerCase (label_name l)) = Some cap ->
       exists ds, cap = Some ds
                  /\ parsePoints (pre ++ l :: rest)
                     = Num.max Num.one (Num.round64 (Str.digits_val ds))
                  /\ ((Str.digits_val ds <= 2 ^ 53)%Z ->
                      parsePoints (pre ++ l :: rest)
                      = Num.of_Z (Z.max 1 (Str.digits_val ds))).
Proof.
  intros _ Hpre. split.
  - induction Hpre as [|l' pre Hl' _ IH]; [reflexivity|].
    simpl. unfold no_points in Hl'. rewrite Hl'. exact IH.
  - intros l rest cap _ Hl.
    destruct (parsePoints_match l rest cap Hl) as (ds & -> & _ & Hds & H).
    exists ds. split; [reflexivity|].
    assert (Hskip : parsePoints (pre ++ l :: rest) = parsePoints (l :: rest)).
    { induction Hpre as [|l' pre Hl' _ IH]; [reflexivity|].
      simpl. unfold no_points in Hl'. rewrite Hl'. exact IH. }
    rewrite Hskip, H. split; [reflexivity|].
    intros Hsmall. rewrite round64_exact by (split; [apply digits_val_nonneg, Hds|exact Hsmall]).
    apply max_one_of_Z.
Qed.

Lemma parsePoints_first_match_witness :
  Forall ascii_name [LabelStr "bug"; LabelObj None]
  /\ Forall no_points [LabelStr "bug"; LabelObj None]
  /\ parsePoints [LabelStr "bug"; LabelObj None] = Num.one
  /\ ascii_name (LabelStr "P:0")
  /\ parsePoints ([LabelStr "bug"; LabelObj None] ++ LabelStr "P:0" :: [LabelStr "p:8"])
     = Num.of_Z 1.
Proof.
  assert (Ha : Forall ascii_name [LabelStr "bug"; LabelObj None]) by (repeat constructor).
  assert (H : Forall no_points [LabelStr "bug"; LabelObj None]) by (repeat constructor).
  assert (Hl : ascii_name (LabelStr "P:0")) by reflexivity.
  destruct (parsePoints_first_match _ Ha H) as [H1 H2].
  split; [exact Ha|]. split; [exact H|]. split; [exact H1|]. split; [exact Hl|].
  destruct (H2 (LabelStr "P:0") [LabelStr "p:8"] (Some (Str.chars "0")) Hl eq_refl)
    as (ds & [= <-] & _ & Hp).
  apply Hp. vm_compute. discriminate.
Defined.

(** ** Labels without digits *)

Create HintDb digits.
#[local] Hint Constructors eats_digit : digits.

Section Suffix.
Context {R : Type}.

(** The continuation is reached on a suffix of the input. *)
Lemma run_suffix r : forall prev s cap (k : @Re.cont R) x,
  Re.run r prev s cap k = Some x ->
  exists prev' pre s' cap', s = pre ++ s' /\ k prev' s' cap' = Some x.
Proof.
  induction r as [|c|p|a IHa b IHb|a IHa b IHb|a IHa|p|p| |a IHa];
    intros prev s cap k x H; cbn [Re.run] in H.
  - exists prev, [], s, cap. auto.
  - destruct s as [|c' s]; [discriminate|]. destruct (Ascii.eqb c' c); [|discriminate].
    exists (Some c'), [c'], s, cap. auto.
  - destruct s as [|c' s]; [discriminate|]. destruct (p c'); [|discriminate].
    exists (Some c'), [c'], s, cap. auto.
  - apply IHa in H as (prev1 & pre1 & s1 & cap1 & -> & H).
    apply IHb in H as (prev2 & pre2 & s2 & cap2 & -> & H).
    exists prev2, (pre1 ++ pre2), s2, cap2. rewrite <- app_assoc. auto.
  - apply orelse_some in H as [H|H]; eauto.
  - apply orelse_some in H as [H|H]; [eauto|]. exists prev, [], s, cap. auto.
  - apply star_inv in H as (ds & s' & prev' & -> & _ & H). eauto 6.
  - apply (plus_inv p prev s cap k x) in H as (ds & s' & prev' & -> & _ & _ & H). eauto 6.
  - destruct (xorb _ _); [|discriminate]. exists prev, [], s, cap. auto.
  - apply IHa in H as (prev1 & pre1 & s1 & cap1 & -> & H). eauto 6.
Qed.

Lemma has_digit_app a b : has_digit (a ++ b) = has_digit a || has_digit b.
Proof. apply existsb_app. Qed.

Lemma run_eats_digit r :
  eats_digit r -> forall prev s cap (k : @Re.cont R) x,
  Re.run r prev s cap k = Some x -> has_digit s = true.
Proof.
  induction 1 as [|r _ IH|a b _ IH|a b _ IH]; intros prev s cap k x H.
  - apply (plus_inv Str.is_digit prev s cap k x) in H as (ds & s' & _ & -> & Hne & Hds & _).
    rewrite has_digit_app. destruct ds as [|d ds]; [congruence|].
    simpl in *. apply andb_prop in Hds as [-> _]. reflexivity.
  - cbn [Re.run] in H. eapply IH, H.
  - cbn [Re.run] in H. eapply IH, H.
  - cbn [Re.run] in H. apply run_suffix in H as (prev' & pre & s' & cap' & -> & H).
    apply IH in H. rewrite has_digit_app, H. apply orb_true_r.
Qed.

End Suffix.

Lemma search_eats_digit r :
  eats_digit r -> forall s prev cap, Re.search r prev s = Some cap -> has_digit s = true.
Proof.
  intros Hr. induction s as [|c s IH]; intros prev cap H; cbn [Re.search] in H;
    apply orelse_some in H as [H|H].
  - apply (run_eats_digit r Hr) in H. exact H.
  - discriminate.
  - apply (run_eats_digit r Hr) in H. exact H.
  - apply IH in H. simpl. rewrite H. apply orb_true_r.
Qed.

Lemma exec_digit_free r s :
  eats_digit r -> has_digit (Str.chars s) = false -> Re.exec r s = None.
Proof.
  intros Hr Hs. unfold Re.exec. destruct (Re.search r None (Str.chars s)) eqn:E; [|reflexivity].
  apply (search_eats_digit r Hr) in E. congruence.
Qed.

Lemma is_digit_lower c : Str.is_digit (Str.lower_char c) = Str.is_digit c.
Proof. destruct c as [[] [] [] [] [] [] [] []]; reflexivity. Qed.

Lemma has_digit_lower s :
  has_digit (Str.chars (Str.toLowerCase s)) = has_digit (Str.chars s).
Proof.
  induction s as [|c s IH]; [reflexivity|].
  cbn [Str.toLowerCase Str.chars list_ascii_of_string has_digit existsb].
  rewrite is_digit_lower. f_equal. exact IH.
Qed.

Ltac eats :=
  cbv [re_p re_points re_n_points re_p_tag re_points_tag Re.seq Re.lit Re.lit_chars
       Str.chars list_ascii_of_string];
  auto 20 with digits.

Lemma digit_free_no_points n :
  digit_free n ->
  points_match (Str.toLowerCase n) = None /\ p_or_points_label n = false.
Proof.
  unfold digit_free. rewrite <- has_digit_lower. intros H.
  assert (H1 : Re.exec re_p (Str.toLowerCase n) = None)
    by (apply exec_digit_free; [eats|exact H]).
  assert (H2 : Re.exec re_points (Str.toLowerCase n) = None)
    by (apply exec_digit_free; [eats|exact H]).
  assert (H3 : Re.exec re_n_points (Str.toLowerCase n) = None)
    by (apply exec_digit_free; [eats|exact H]).
  assert (H4 : Re.exec re_p_tag (Str.toLowerCase n) = None)
    by (apply exec_digit_free; [eats|exact H]).
  assert (H5 : Re.exec re_points_tag (Str.toLowerCase n) = None)
    by (apply exec_digit_free; [eats|exact H]).
  split.
  - unfold points_match. rewrite H1, H2, H3. reflexivity.
  - unfold p_or_points_label, Re.test. rewrite H4, H5. reflexivity.
Qed.

(** X3.  Labels whose names contain no digit never encode points: the
    points are the default 1, and every non-empty name is kept as a tag (up
    to the cut to six). *)
Theorem labels_without_digits labels :
  Forall (fun l => digit_free (label_name l)) labels ->
  parsePoints labels = Num.one
  /\ takeTags labels = firstn 6 (List.filter Str.nonempty (map label_name labels)).
Proof.
  intros H. split.
  - induction H as [|l labels Hl _ IH]; [reflexivity|].
    simpl. rewrite (proj1 (digit_free_no_points _ Hl)). exact IH.
  - unfold takeTags. f_equal.
    induction H as [|l labels Hl _ IH]; [reflexivity|].
    cbn [map List.filter]. destruct (Str.nonempty (label_name l)); [|exact IH].
    pose proof (proj2 (digit_free_no_points _ Hl)) as Hp.
    unfold p_or_points_label in Hp. apply orb_false_elim in Hp as [H1 H2].
    cbn [List.filter]. rewrite H1. cbn [negb List.filter]. rewrite H2. cbn [negb].
    f_equal. exact IH.
Qed.

Lemma labels_without_digits_witness :
  Forall (fun l => digit_free (label_name l)) More.labels_plain
  /\ parsePoints More.labels_plain = Num.one
  /\ takeTags More.labels_plain = ["bug"; "Points"; "p:high"].
Proof.
  assert (H : Forall (fun l => digit_free (label_name l)) More.labels_plain)
    by (repeat constructor).
  split; [exact H|exact (labels_without_digits _ H)].
Defined.

(** ** [guessType] *)

Lemma existsb_Permutation {A} (f : A -> bool) l l' :
  Permutation l l' -> existsb f l = existsb f l'.
Proof.
  induction 1 as [|x l l' _ IH|x y l|l l' l'' _ IH1 _ IH2]; simpl.
  - reflexivity.
  - rewrite IH. reflexivity.
  - destruct (f x), (f y); reflexivity.
  - congruence.
Qed.

(** X4.  [guessType] does not depend on the order of the labels. *)
Theorem guessType_Permutation labels labels' fallback :
  Permutation labels labels' -> guessType labels fallback = guessType labels' fallback.
Proof.
  intros H. unfold guessType, some_name.
  pose proof (Permutation_map (fun l => Str.toLowerCase (label_name l)) H) as Hm.
  rewrite !(existsb_Permutation _ _ _ Hm). reflexivity.
Qed.

Lemma guessType_Permutation_witness :
  Permutation [LabelStr "docs"; LabelStr "bug"] [LabelStr "bug"; LabelStr "docs"]
  /\ guessType [LabelStr "docs"; LabelStr "bug"] "issue"
     = guessType [LabelStr "bug"; LabelStr "docs"] "issue".
Proof.
  assert (H : Permutation [LabelStr "docs"; LabelStr "bug"] [LabelStr "bug"; LabelStr "docs"])
    by apply perm_swap.
  split; [exact H|exact (guessType_Permutation _ _ "issue" H)].
Defined.

Lemma strip_prefix_spec w : forall s s', strip_prefix w s = Some s' <-> s = w ++ s'.
Proof.
  induction w as [|c w IH]; intros s s'; simpl.
  - split; congruence.
  - destruct s as [|x s]; [split; discriminate|].
    destruct (Ascii.eqb_spec x c) as [->|Hne].
    + rewrite IH. split; congruence.
    + split; [discriminate|]. intros [= Hx _]. contradiction.
Qed.

Lemma last_char_cons c c' w prev prev' :
  last_char (c :: c' :: w) prev = last_char (c' :: w) prev'.
Proof.
  unfold last_char. change (last (c :: c' :: w)) with (last (c' :: w)).
  destruct (last (c' :: w)) eqn:E; [reflexivity|].
  apply last_None in E. discriminate.
Qed.

Lemma run_lit {R} w : forall prev s cap (k : @Re.cont R),
  Re.run (Re.lit_chars w) prev s cap k
  = match strip_prefix w s with
    | Some s' => k (last_char w prev) s' cap
    | None => None
    end.
Proof.
  induction w as [|c w IH]; intros prev s cap k; [reflexivity|].
  destruct w as [|c' w].
  - simpl. destruct s as [|x s]; [reflexivity|].
    destruct (Ascii.eqb_spec x c) as [->|]; reflexivity.
  - change (Re.lit_chars (c :: c' :: w)) with (Re.Seq (Re.Chr c) (Re.lit_chars (c' :: w))).
    cbn [Re.run]. destruct s as [|x s]; [reflexivity|].
    cbn [strip_prefix]. destruct (Ascii.eqb x c); [|reflexivity].
    rewrite IH. rewrite (last_char_cons c c' w prev (Some x)). reflexivity.
Qed.

Lemma run_alt_lits words : forall prev s,
  is_Some (Re.run (Re.alt (map Re.lit words)) prev s None accept)
  <-> exists w s', In w words /\ s = Str.chars w ++ s'.
Proof.
  induction words as [|w words IH]; intros prev s.
  - simpl. split.
    + destruct s; intros [? [=]].
    + intros (? & ? & [] & _).
  - assert (Hw : is_Some (Re.run (Re.lit w) prev s None accept)
                 <-> exists s', s = Str.chars w ++ s').
    { unfold Re.lit. rewrite run_lit.
      destruct (strip_prefix (Str.chars w) s) as [s'|] eqn:E.
      - apply strip_prefix_spec in E. split; [eauto|]. intros _. unfold accept. eauto.
      - split; [intros [? [=]]|]. intros [s' Hs']. apply strip_prefix_spec in Hs'. congruence. }
    destruct words as [|w' words].
    + cbn [map Re.alt]. rewrite Hw. split.
      * intros [s' ->]. exists w, s'. split; [left; reflexivity|reflexivity].
      * intros (w0 & s' & [<-|[]] & ->). eauto.
    + change (Re.alt (map Re.lit (w :: w' :: words)))
        with (Re.Alt (Re.lit w) (Re.alt (map Re.lit (w' :: words)))).
      cbn [Re.run]. split.
      * intros [x Hx]. apply orelse_some in Hx as [Hx|Hx].
        -- destruct (proj1 Hw (ex_intro _ x Hx)) as [s' ->].
           exists w, s'. split; [left; reflexivity|reflexivity].
        -- destruct (proj1 (IH prev s) (ex_intro _ x Hx)) as (w0 & s' & Hin & ->).
           exists w0, s'. split; [right; exact Hin|reflexivity].
      * intros (w0 & s' & [<-|Hin] & ->).
        -- destruct (proj2 Hw (ex_intro _ s' eq_refl)) as [x Hx].
           unfold Re.orelse. rewrite Hx. eauto.
        -- destruct (proj2 (IH prev (Str.chars w0 ++ s')) (ex_intro _ w0 (ex_intro _ s' (conj Hin eq_refl)))) as [x Hx].
           unfold Re.orelse.
           destruct (Re.run (Re.lit w) prev (Str.chars w0 ++ s') None accept); eauto.
Qed.

Lemma search_alt_lits words : forall s prev,
  is_Some (Re.search (Re.alt (map Re.lit words)) prev s)
  <-> exists w pre post, In w words /\ s = pre ++ Str.chars w ++ post.
Proof.
  induction s as [|c s IH]; intros prev.
  - cbn [Re.search]. split.
    + intros [x Hx]. apply orelse_some in Hx as [Hx|[=]].
      destruct (proj1 (run_alt_lits words prev []) (ex_intro _ x Hx)) as (w & s' & Hin & Hs).
      exists w, [], s'. auto.
    + intros (w & pre & post & Hin & Hs).
      destruct pre; [|discriminate]. simpl in Hs.
      destruct (proj2 (run_alt_lits words prev []) (ex_intro _ w (ex_intro _ post (conj Hin Hs))))
        as [x Hx].
      change (Re.run (Re.alt (map Re.lit words)) prev [] None (fun _ _ cap => Some cap))
        with (Re.run (Re.alt (map Re.lit words)) prev [] None accept).
      rewrite Hx. simpl. eauto.
  - cbn [Re.search]. split.
    + intros [x Hx]. apply orelse_some in Hx as [Hx|Hx].
      * destruct (proj1 (run_alt_lits words prev (c :: s)) (ex_intro _ x Hx))
          as (w & s' & Hin & Hs).
        exists w, [], s'. auto.
      * destruct (proj1 (IH (Some c)) (ex_intro _ x Hx)) as (w & pre & post & Hin & ->).
        exists w, (c :: pre), post. auto.
    + intros (w & pre & post & Hin & Hs).
      change (Re.run (Re.alt (map Re.lit words)) prev (c :: s) None (fun _ _ cap => Some cap))
        with (Re.run (Re.alt (map Re.lit words)) prev (c :: s) None accept).
      destruct (Re.run (Re.alt (map Re.lit words)) prev (c :: s) None accept) eqn:E;
        [simpl; eauto|].
      simpl. apply IH. destruct pre as [|c' pre].
      * exfalso. simpl in Hs.
        destruct (proj2 (run_alt_lits words prev (c :: s))
                    (ex_intro _ w (ex_intro _ post (conj Hin Hs)))) as [x Hx]. congruence.
      * injection Hs as -> ->. eauto.
Qed.

Lemma some_name_words words labels :
  some_name (Re.alt (map Re.lit words))
    (map (fun l => Str.toLowerCase (label_name l)) labels) = true
  <-> some_label_has words labels.
Proof.
  unfold some_name, some_label_has, occurs_in. rewrite existsb_exists. split.
  - intros (n & (l & <- & Hl)%in_map_iff & Ht). unfold Re.test, Re.exec in Ht.
    destruct (Re.search _ _ _) as [cap|] eqn:E; [|discriminate].
    destruct (proj1 (search_alt_lits words _ None) (ex_intro _ cap E))
      as (w & pre & post & Hin & Hs). eauto 8.
  - intros (l & w & Hl & Hw & pre & post & Hs).
    exists (Str.toLowerCase (label_name l)). split; [apply in_map_iff; eauto|].
    unfold Re.test, Re.exec.
    destruct (proj2 (search_alt_lits words (Str.chars (Str.toLowerCase (label_name l))) None))
      as [cap Hcap]; [eauto 8|]. rewrite Hcap. reflexivity.
Qed.

Ltac decide_words H :=
  match type of H with
  | ?b = true <-> ?P =>
      destruct b;
      [ assert P by (apply H; reflexivity)
      | assert (~ P) by (intros ?%H; discriminate) ];
      clear H
  end.

(** X5.  The type is decided by the first of five word groups that occurs
    in some lower-cased label name, anywhere in the name: bug/fix/defect
    give "bug", then doc/docs "docs", feat/feature/enhancement "feature",
    infra/ops/devops "infra", task/chore "task"; when no group occurs the
    type is the fallback (or "task" for an empty fallback). *)
Theorem guessType_priority labels fallback :
  let B := some_label_has ["bug"; "fix"; "defect"] labels in
  let D := some_label_has ["doc"; "docs"] labels in
  let F := some_label_has ["feat"; "feature"; "enhancement"] labels in
  let I := some_label_has ["infra"; "ops"; "devops"] labels in
  let T := some_label_has ["task"; "chore"] labels in
  (B -> guessType labels fallback = "bug")
  /\ (~ B -> D -> guessType labels fallback = "docs")
  /\ (~ B -> ~ D -> F -> guessType labels fallback = "feature")
  /\ (~ B -> ~ D -> ~ F -> I -> guessType labels fallback = "infra")
  /\ (~ B -> ~ D -> ~ F -> ~ I -> T -> guessType labels fallback = "task")
  /\ (~ B -> ~ D -> ~ F -> ~ I -> ~ T ->
      guessType labels fallback = if Str.nonempty fallback then fallback else "task").
Proof.
  cbv zeta. unfold guessType.
  pose proof (some_name_words ["bug"; "fix"; "defect"] labels) as HB.
  pose proof (some_name_words ["doc"; "docs"] labels) as HD.
  pose proof (some_name_words ["feat"; "feature"; "enhancement"] labels) as HF.
  pose proof (some_name_words ["infra"; "ops"; "devops"] labels) as HI.
  pose proof (some_name_words ["task"; "chore"] labels) as HT.
  cbn [map] in HB, HD, HF, HI, HT.
  decide_words HB; decide_words HD; decide_words HF; decide_words HI; decide_words HT;
    repeat split; intros; try reflexivity; contradiction.
Qed.

Lemma guessType_priority_witness :
  ~ some_label_has ["bug"; "fix"; "defect"] More.labels_docs_ops
  /\ some_label_has ["doc"; "docs"] More.labels_docs_ops
  /\ some_label_has ["infra"; "ops"; "devops"] More.labels_docs_ops
  /\ guessType More.labels_docs_ops "issue" = "docs".
Proof.
  assert (HB : ~ some_label_has ["bug"; "fix"; "defect"] More.labels_docs_ops).
  { intros H. apply (proj2 (some_name_words _ _)) in H. vm_compute in H. discriminate. }
  assert (HD : some_label_has ["doc"; "docs"] More.labels_docs_ops).
  { apply (proj1 (some_name_words ["doc"; "docs"] More.labels_docs_ops)). reflexivity. }
  assert (HI : some_label_has ["infra"; "ops"; "devops"] More.labels_docs_ops).
  { apply (proj1 (some_name_words ["infra"; "ops"; "devops"] More.labels_docs_ops)).
    reflexivity. }
  split; [exact HB|]. split; [exact HD|]. split; [exact HI|].
  exact (proj1 (proj2 (guessType_priority More.labels_docs_ops "issue")) HB HD).
Defined.

(** ** [takeTags] *)

Lemma takeTags_filter labels :
  takeTags labels = firstn 6 (List.filter tag_like (map label_name labels)).
Proof.
  unfold takeTags, tag_like, p_or_points_label. f_equal.
  induction (map label_name labels) as [|n names IH]; [reflexivity|].
  simpl. destruct (Str.nonempty n); simpl; [|exact IH].
  destruct (Re.test re_p_tag _); simpl; [exact IH|].
  destruct (Re.test re_points_tag _); simpl; [exact IH|]. f_equal. exact IH.
Qed.

Lemma Forall_filter_true {A} (f : A -> bool) l :
  Forall (fun x => f x = true) (List.filter f l).
Proof. apply List.Forall_forall. intros x [_ Hx]%filter_In. exact Hx. Qed.

Lemma filter_all_true {A} (f : A -> bool) l :
  Forall (fun x => f x = true) l -> List.filter f l = l.
Proof.
  induction 1 as [|x l Hx _ IH]; simpl; [reflexivity|]. rewrite Hx, IH. reflexivity.
Qed.

Lemma List_filter_sublist {A} (f : A -> bool) l : List.filter f l `sublist_of` l.
Proof.
  induction l as [|x l IH]; simpl; [constructor|].
  destruct (f x); [apply sublist_skip, IH|apply sublist_cons, IH].
Qed.

(** X6.  The tags are a subsequence of the label names, in the order of
    the labels; every tag is non-empty and matches neither of the two
    patterns [takeTags] filters on. *)
Theorem takeTags_sublist labels :
  takeTags labels `sublist_of` map label_name labels
  /\ Forall (fun t => Str.nonempty t = true /\ p_or_points_label t = false) (takeTags labels).
Proof.
  rewrite takeTags_filter. split.
  - etransitivity; [apply sublist_take|apply List_filter_sublist].
  - apply Forall_take. eapply Forall_impl; [apply Forall_filter_true|].
    intros t [H1 H2%negb_true_iff]%andb_prop. auto.
Qed.

(** X7.  Taking the tags of the tags changes nothing. *)
Theorem takeTags_idempotent labels :
  takeTags (map LabelStr (takeTags labels)) = takeTags labels.
Proof.
  rewrite (takeTags_filter (map LabelStr _)), map_map. cbn [label_name]. rewrite map_id.
  rewrite filter_all_true.
  - rewrite takeTags_filter. apply firstn_firstn.
  - rewrite takeTags_filter. apply Forall_take, Forall_filter_true.
Qed.

Section Erase.
Context {R : Type}.

Lemma is_Some_orelse {A} (a : option A) b :
  is_Some (Re.orelse a b) <-> is_Some a \/ is_Some (b tt).
Proof.
  destruct a; simpl; split; eauto. intros [[? [=]]|H]; exact H.
Qed.

Lemma star_same_success p (k k' : option ascii -> list ascii -> option R) :
  (forall prev s, is_Some (k prev s) <-> is_Some (k' prev s)) ->
  forall s prev, is_Some (Re.star p k prev s) <-> is_Some (Re.star p k' prev s).
Proof.
  intros Hk. induction s as [|c s IH]; intros prev; simpl; [apply Hk|].
  destruct (p c); [|apply Hk].
  rewrite !is_Some_orelse, IH, Hk. reflexivity.
Qed.

Lemma run_erase_groups r : forall prev s cap cap' (k k' : @Re.cont R),
  same_success k k' ->
  is_Some (Re.run r prev s cap k) <-> is_Some (Re.run (erase_groups r) prev s cap' k').
Proof.
  induction r as [|c|p|a IHa b IHb|a IHa b IHb|a IHa|p|p| |a IHa];
    intros prev s cap cap' k k' Hk; cbn [erase_groups Re.run].
  - apply Hk.
  - destruct s as [|x s]; [reflexivity|]. destruct (Ascii.eqb x c); [apply Hk|reflexivity].
  - destruct s as [|x s]; [reflexivity|]. destruct (p x); [apply Hk|reflexivity].
  - apply IHa. intros prev' s' c c'. apply IHb, Hk.
  - rewrite !is_Some_orelse, (IHa prev s cap cap' k k' Hk), (IHb prev s cap cap' k k' Hk).
    reflexivity.
  - rewrite !is_Some_orelse, (IHa prev s cap cap' k k' Hk), (Hk prev s cap cap'). reflexivity.
  - apply star_same_success. intros prev' s'. apply Hk.
  - destruct s as [|x s]; [reflexivity|]. destruct (p x); [|reflexivity].
    apply star_same_success. intros prev' s'. apply Hk.
  - destruct (xorb _ _); [apply Hk|reflexivity].
  - apply IHa. intros prev' s' c c'. apply Hk.
Qed.

End Erase.

Lemma search_erase_groups r : forall s prev,
  is_Some (Re.search r prev s) <-> is_Some (Re.search (erase_groups r) prev s).
Proof.
  assert (Hk : same_success (fun _ _ cap => Some cap : option (option (list ascii)))
                 (fun _ _ cap => Some cap)).
  { intros prev s c c'. split; eauto. }
  induction s as [|c s IH]; intros prev; cbn [Re.search];
    rewrite !is_Some_orelse, (run_erase_groups r _ _ None None _ _ Hk).
  - reflexivity.
  - rewrite IH. reflexivity.
Qed.

Lemma test_erase_groups r s :
  Re.test (erase_groups r) s = true <-> is_Some (Re.exec r s).
Proof.
  unfold Re.test, Re.exec. rewrite search_erase_groups.
  destruct (Re.search (erase_groups r) None (Str.chars s)); split; eauto; try discriminate.
  intros [? [=]].
Qed.

(** X8.  The two patterns [takeTags] filters on accept exactly the strings
    that the first two patterns of [parsePoints] match: a label left out of
    the tags for looking like points is one that [parsePoints] reads as
    points. *)
Theorem takeTags_parsePoints_patterns n :
  (Re.test re_p_tag n = true <-> is_Some (Re.exec re_p n))
  /\ (Re.test re_points_tag n = true <-> is_Some (Re.exec re_points n))
  /\ (p_or_points_label n = true -> is_Some (points_match (Str.toLowerCase n))).
Proof.
  assert (H1 : Re.test re_p_tag n = true <-> is_Some (Re.exec re_p n))
    by apply (test_erase_groups re_p).
  assert (H2 : Re.test re_points_tag n = true <-> is_Some (Re.exec re_points n))
    by apply (test_erase_groups re_points).
  split; [exact H1|]. split; [exact H2|].
  unfold p_or_points_label, points_match. intros [H|H]%orb_prop.
  - apply (test_erase_groups re_p) in H as [cap ->]. simpl. eauto.
  - apply (test_erase_groups re_points) in H as [cap Hc].
    rewrite !is_Some_orelse. right. left. eauto.
Qed.

Lemma takeTags_parsePoints_patterns_witness :
  p_or_points_label "Points=5" = true
  /\ is_Some (points_match (Str.toLowerCase "Points=5")).
Proof.
  assert (H : p_or_points_label "Points=5" = true) by reflexivity.
  split; [exact H|].
  exact (proj2 (proj2 (takeTags_parsePoints_patterns "Points=5")) H).
Defined.

(** ** [repoFromUrl] *)

Lemma chars_of_chars l : Str.chars (Str.of_chars l) = l.
Proof. apply list_ascii_of_string_of_list_ascii. Qed.

Lemma of_chars_chars s : Str.of_chars (Str.chars s) = s.
Proof. apply string_of_list_ascii_of_string. Qed.

Lemma chars_app a b : Str.chars (a ++ b) = Str.chars a ++ Str.chars b.
Proof. unfold Str.chars. induction a as [|c a IH]; simpl; [reflexivity|]. f_equal. exact IH. Qed.

Lemma split_chars_free sep : forall l cur,
  Forall (fun x => x <> sep) l ->
  Str.split_chars sep cur l = [Str.of_chars (rev cur ++ l)].
Proof.
  induction l as [|c l IH]; intros cur H; simpl.
  - rewrite app_nil_r. reflexivity.
  - inversion H as [|? ? Hc Hl]; subst.
    destruct (Ascii.eqb_spec c sep) as [->|_]; [contradiction|].
    rewrite IH by assumption. simpl. rewrite <- app_assoc. reflexivity.
Qed.

Lemma last_split_chars sep r : Forall (fun x => x <> sep) r ->
  forall a cur, last (Str.split_chars sep cur (a ++ sep :: r)) = Some (Str.of_chars r).
Proof.
  intros Hr. induction a as [|c a IH]; intros cur; simpl.
  - rewrite Ascii.eqb_refl, (split_chars_free sep r [] Hr). reflexivity.
  - destruct (Ascii.eqb c sep).
    + rewrite last_cons, IH. reflexivity.
    + apply IH.
Qed.

Lemma split_chars_parts_free sep : forall l cur,
  Forall (fun x => x <> sep) cur ->
  Forall (free_of sep) (Str.split_chars sep cur l).
Proof.
  induction l as [|c l IH]; intros cur Hcur; simpl.
  - constructor; [|constructor]. unfold free_of. rewrite chars_of_chars.
    apply Forall_rev, Hcur.
  - destruct (Ascii.eqb_spec c sep) as [->|Hne].
    + constructor; [|apply IH; constructor].
      unfold free_of. rewrite chars_of_chars. apply Forall_rev, Hcur.
    + apply IH. constructor; assumption.
Qed.

(** X9.  [repoFromUrl] is never undefined, and what it returns contains
    no slash. *)
Theorem repoFromUrl_segment url :
  exists repo, repoFromUrl url = Some repo /\ free_of "/" repo.
Proof.
  unfold repoFromUrl, Str.split.
  pose proof (split_chars_parts_free "/" (Str.chars url) [] ltac:(constructor)) as Hfree.
  destruct (split_chars_nonempty "/" (Str.chars url) []) as (part & parts & E).
  rewrite E in *. destruct (last (part :: parts)) as [repo|] eqn:El.
  - exists repo. split; [reflexivity|].
    apply last_Some in El as [l' El]. rewrite El in Hfree.
    apply Forall_app in Hfree as [_ Hfree]. inversion Hfree; assumption.
  - apply last_None in El. discriminate.
Qed.

(** X10.  For a URL that ends in a slash followed by a name without
    slashes, [repoFromUrl] returns that name. *)
Theorem repoFromUrl_last base repo :
  free_of "/" repo -> repoFromUrl (base ++ "/" ++ repo) = Some repo.
Proof.
  intros H. unfold repoFromUrl, Str.split. rewrite chars_app. simpl.
  fold (Str.chars repo). rewrite (last_split_chars "/" (Str.chars repo) H).
  rewrite of_chars_chars. reflexivity.
Qed.

Lemma repoFromUrl_last_witness :
  free_of "/" ".github"
  /\ repoFromUrl ("https://api.github.com/repos/jai-nexus" ++ "/" ++ ".github") = Some ".github".
Proof.
  assert (H : free_of "/" ".github") by (repeat constructor; discriminate).
  split; [exact H|exact (repoFromUrl_last "https://api.github.com/repos/jai-nexus" ".github" H)].
Defined.

(** ** The entries of the allow-list *)

Lemma trimStart_clean l : clean (Str.trimStart l).
Proof.
  induction l as [|c l IH]; simpl; [exact I|].
  destruct (Str.is_space c) eqn:E; [exact IH|exact E].
Qed.

Lemma trimStart_id l : clean l -> Str.trimStart l = l.
Proof. destruct l as [|c l]; simpl; [reflexivity|]. intros ->. reflexivity. Qed.

Lemma trimStart_suffix l :
  exists sp, l = sp ++ Str.trimStart l.
Proof.
  induction l as [|c l [sp IH]]; simpl; [exists []; reflexivity|].
  destruct (Str.is_space c); [|exists []; reflexivity].
  exists (c :: sp). simpl. congruence.
Qed.

(** Trimming the end of a clean list leaves it clean. *)
Lemma rev_trimStart_rev_clean t : clean t -> clean (rev (Str.trimStart (rev t))).
Proof.
  intros Ht. destruct (trimStart_suffix (rev t)) as [sp Hsp].
  destruct (Str.trimStart (rev t)) as [|c u] eqn:E; [exact I|].
  assert (Ht' : t = rev (c :: u) ++ rev sp).
  { rewrite <- rev_app_distr, <- Hsp, rev_involutive. reflexivity. }
  destruct (rev (c :: u)) as [|x v] eqn:Er.
  - apply (f_equal (@length _)) in Er. rewrite length_rev in Er. discriminate.
  - rewrite Ht' in Ht. exact Ht.
Qed.

Lemma trim_idempotent s : Str.trim (Str.trim s) = Str.trim s.
Proof.
  unfold Str.trim. rewrite chars_of_chars. f_equal. f_equal.
  set (t := Str.trimStart (Str.chars s)).
  set (u := Str.trimStart (rev t)).
  assert (Hu : clean u) by apply trimStart_clean.
  assert (Hr : clean (rev u)) by (apply rev_trimStart_rev_clean, trimStart_clean).
  rewrite (trimStart_id (rev u) Hr), rev_involutive. apply trimStart_id, Hu.
Qed.

(** X11.  The entries of the allow-list are trimmed: white space around
    the names of the SUBSET setting is not part of them. *)
Theorem allow_list_entries_trimmed e allow r :
  SUBSET e = Some allow -> r ∈ allow -> Str.trim r = r.
Proof.
  unfold SUBSET. destruct (Str.nonempty _); [|discriminate].
  intros [= <-] Hr. apply elem_of_list_to_set, list_elem_of_In, in_map_iff in Hr
    as (part & <- & _). apply trim_idempotent.
Qed.

Lemma allow_list_entries_trimmed_witness :
  SUBSET More.env_spaced_subset = Some More.spaced_allow
  /\ "repoA" ∈ More.spaced_allow
  /\ Str.trim "repoA" = "repoA".
Proof.
  assert (H1 : SUBSET More.env_spaced_subset = Some More.spaced_allow) by reflexivity.
  assert (H2 : "repoA" ∈ More.spaced_allow).
  { apply elem_of_list_to_set, list_elem_of_In. vm_compute. auto. }
  split; [exact H1|]. split; [exact H2|].
  exact (allow_list_entries_trimmed More.env_spaced_subset More.spaced_allow "repoA" H1 H2).
Defined.

(** ** The requests of the code-hosting fetcher *)

Section SearchTrace.
Variable e : Env.
Variable q : string.

(** What a search leaves behind: the requests for consecutive pages, all
    answered except, when it throws, the last. *)
Lemma search_from_trace left : forall page st,
  exists n,
    n <= left /\ (0 < left -> 0 < n)
    /\ GhM.log (snd (search_from e q left page st))
       = GhM.log st ++ map (Gh.mk_request q 100) (seq page n)
    /\ match fst (search_from e q left page st) with
       | Ret _ => Forall (answered e) (map (Gh.mk_request q 100) (seq page n))
       | Throw msg =>
           0 < n
           /\ Forall (answered e) (map (Gh.mk_request q 100) (seq page (n - 1)))
           /\ gh_server e (Gh.mk_request q 100 (page + (n - 1))) = Failed msg
       | Pending => False
       end.
Proof.
  induction left as [|left IH]; intros page st.
  - exists 0. cbn. rewrite app_nil_r. repeat split; auto; lia.
  - rewrite search_from_step. cbv zeta. unfold per_page.
    destruct (gh_server e (Gh.mk_request q 100 page)) as [msg|data] eqn:E.
    { exists 1. cbn. rewrite Nat.add_0_r. repeat split; auto; lia. }
    assert (Hone : exists n : nat,
              n <= S left /\ (0 < S left -> 0 < n)
              /\ GhM.log st ++ [Gh.mk_request q 100 page]
                 = GhM.log st ++ map (Gh.mk_request q 100) (seq page n)
              /\ Forall (answered e) (map (Gh.mk_request q 100) (seq page n))).
    { exists 1. cbn. repeat split; auto; try lia. constructor; [|constructor].
      exists data. exact E. }
    destruct (Gh.items data) as [[|x items]|]; try exact Hone.
    destruct (length (x :: items) <? 100)%nat; [exact Hone|].
    destruct (IH (S page) (pushed (logged st (Gh.mk_request q 100 page)) (x :: items)))
      as (n & Hn & _ & Hlog & Hres).
    exists (S n). rewrite Hlog. cbn [pushed logged GhM.log seq map].
    rewrite <- app_assoc. repeat split; auto; try lia.
    destruct (fst (search_from e q left (S page) _)) as [[]|msg|]; [| |contradiction].
    + constructor; [exists data; exact E|exact Hres].
    + destruct Hres as (Hpos & Hall & Hfail). destruct n as [|n]; [lia|].
      cbn [Nat.sub] in *. rewrite Nat.sub_0_r in *.
      split; [lia|]. split; [constructor; [exists data; exact E|exact Hall]|].
      replace (page + S n) with (S page + n) by lia. exact Hfail.
Qed.
End SearchTrace.

Lemma search_from_all_bound e q :
  page_size_respected e ->
  forall left page st,
    length (GhM.all (snd (search_from e q left page st))) <= length (GhM.all st) + left * 100.
Proof.
  intros Hsize. induction left as [|left IH]; intros page st; [cbn; lia|].
  rewrite search_from_step. cbv zeta. unfold per_page.
  destruct (gh_server e (Gh.mk_request q 100 page)) as [msg|data] eqn:E; [cbn; lia|].
  destruct (Gh.items data) as [[|x items]|] eqn:Ei; try (cbn; lia).
  pose proof (Hsize _ _ _ E Ei) as Hlen. cbn [Gh.per_page] in Hlen.
  destruct (length (x :: items) <? 100)%nat.
  - cbn [snd pushed logged GhM.all]. rewrite length_app. lia.
  - etransitivity; [apply IH|]. cbn [pushed logged GhM.all]. rewrite length_app. lia.
Qed.

Lemma length_List_filter {A} (f : A -> bool) l : length (List.filter f l) <= length l.
Proof. induction l as [|x l IH]; simpl; [lia|]. destruct (f x); simpl; lia. Qed.

Lemma github_filter_length e ts : length (github_filter e ts) <= length ts.
Proof. unfold github_filter. destruct (SUBSET e); [apply length_List_filter|lia]. Qed.

(** The run of the fetcher, by the results of its two searches. *)
Lemma github_run_eq e :
  github_run e
  = match search e (issues_q e) (GhM.mk_state [] []) with
    | (Ret _, st1) =>
        match search e (prs_q e) st1 with
        | (Ret _, st2) => (Ret (github_filter e (map github_task (GhM.all st2))), st2)
        | (Throw msg, st2) => (Throw msg, st2)
        | (Pending, st2) => (Pending, st2)
        end
    | (Throw msg, st1) => (Throw msg, st1)
    | (Pending, st1) => (Pending, st1)
    end.
Proof.
  unfold github_run, fetchGithubTasks_m, issues_q, prs_q. unfold_ghm.
  destruct (search e _ _) as [[[]|msg|] st1]; reflexivity.
Qed.

(** X12.  When the server honours [per_page], the code-hosting fetcher
    returns at most 400 tasks. *)
Theorem fetchGithubTasks_at_most_400 e ts :
  page_size_respected e -> fetchGithubTasks e = Ret ts -> length ts <= 400.
Proof.
  intros Hsize. change (fetchGithubTasks e) with (fst (github_run e)).
  rewrite github_run_eq. unfold search.
  pose proof (search_from_all_bound e (issues_q e) Hsize 2 1 (GhM.mk_state [] [])) as H1.
  destruct (search_from e (issues_q e) 2 1 _) as [[[]|msg|] st1]; try discriminate.
  pose proof (search_from_all_bound e (prs_q e) Hsize 2 1 st1) as H2.
  destruct (search_from e (prs_q e) 2 1 st1) as [[[]|msg|] st2]; try discriminate.
  intros [= <-]. etransitivity; [apply github_filter_length|].
  rewrite length_map. cbn in *. lia.
Qed.

Lemma fetchGithubTasks_at_most_400_witness :
  page_size_respected Sample.env_two_pages
  /\ fetchGithubTasks Sample.env_two_pages = Ret More.tasks_two_pages
  /\ length More.tasks_two_pages <= 400.
Proof.
  assert (H1 : page_size_respected Sample.env_two_pages).
  { intros req data items Hreq Hitems. cbn in Hreq. unfold Sample.gh_two_pages in Hreq.
    destruct (Gh.page req =? 1)%nat; injection Hreq as <-; injection Hitems as <-;
      rewrite repeat_length; lia. }
  assert (H2 : fetchGithubTasks Sample.env_two_pages = Ret More.tasks_two_pages)
    by (vm_compute; reflexivity).
  split; [exact H1|]. split; [exact H2|].
  exact (fetchGithubTasks_at_most_400 Sample.env_two_pages More.tasks_two_pages H1 H2).
Defined.

(** X13.  The fetcher sends one or two requests for the issue search
    (pages 1, 2), then at most two for the pull-request search, each with
    100 items per page.  When it returns, both searches were made and
    every request was answered; when it throws, the message is that of the
    last request sent: nothing is requested after a failure, and the pages
    received before it are dropped. *)
Theorem github_requests_shape e :
  exists n1 n2,
    1 <= n1 <= 2 /\ n2 <= 2
    /\ github_requests e = page_requests (issues_q e) n1 ++ page_requests (prs_q e) n2
    /\ match fetchGithubTasks e with
       | Ret _ => 1 <= n2 /\ Forall (answered e) (github_requests e)
       | Throw msg =>
           exists req, last (github_requests e) = Some req /\ gh_server e req = Failed msg
       | Pending => False
       end.
Proof.
  unfold github_requests. change (fetchGithubTasks e) with (fst (github_run e)).
  rewrite github_run_eq. unfold search, page_requests.
  destruct (search_from_trace e (issues_q e) 2 1 (GhM.mk_state [] []))
    as (n1 & Hn1 & Hpos1 & Hlog1 & Hres1).
  destruct (search_from e (issues_q e) 2 1 _) as [[[]|msg|] st1]; cbn [fst snd] in *;
    [| |contradiction].
  - destruct (search_from_trace e (prs_q e) 2 1 st1) as (n2 & Hn2 & Hpos2 & Hlog2 & Hres2).
    destruct (search_from e (prs_q e) 2 1 st1) as [[[]|msg|] st2]; cbn [fst snd] in *;
      [| |contradiction]; exists n1, n2; rewrite Hlog2, Hlog1; cbn [GhM.log app].
    + repeat split; auto; try lia. apply Forall_app. auto.
    + repeat split; auto; try lia. destruct Hres2 as (Hp & _ & Hfail).
      exists (Gh.mk_request (prs_q e) 100 (1 + (n2 - 1))). split; [|exact Hfail].
      destruct n2 as [|n2]; [lia|]. cbn [Nat.sub]. rewrite Nat.sub_0_r.
      rewrite seq_S, map_app, app_assoc. cbn [map]. apply last_snoc.
  - exists n1, 0. rewrite Hlog1. cbn [GhM.log app page_requests seq map].
    rewrite app_nil_r. repeat split; auto; try lia. destruct Hres1 as (Hp & _ & Hfail).
    exists (Gh.mk_request (issues_q e) 100 (1 + (n1 - 1))). split; [|exact Hfail].
    destruct n1 as [|n1]; [lia|]. cbn [Nat.sub]. rewrite Nat.sub_0_r.
    rewrite seq_S, map_app. cbn [map]. apply last_snoc.
Qed.

Example github_requests_sample :
  github_requests Sample.env_two_pages
  = [Gh.mk_request Sample.issues_query 100 1; Gh.mk_request Sample.issues_query 100 2;
     Gh.mk_request (prs_q Sample.env_two_pages) 100 1;
     Gh.mk_request (prs_q Sample.env_two_pages) 100 2].
Proof. vm_compute. reflexivity. Qed.

(** ** A workspace database that never ends *)

Lemma notion_loop_always_more e :
  always_more e -> forall fuel cursor acc, notion_loop e fuel cursor acc = Pending.
Proof.
  intros Hmore. induction fuel as [|fuel IH]; intros cursor acc; [reflexivity|].
  simpl. unfold notion_post.
  destruct (Hmore (Notion.mk_request (NOTION_DB e) 100 cursor)) as (data & -> & ->).
  apply IH.
Qed.

(** X14.  The loop of the workspace-database fetcher has no page limit:
    with the credentials set and a server that always reports
    [has_more], the fetch does not settle within any number of
    requests, and neither does the run. *)
Theorem notion_never_settles e fuel :
  notion_configured e -> always_more e ->
  fetchNotionTasks e fuel = Pending /\ main e fuel = Unsettled.
Proof.
  intros [Ht Hd] Hmore.
  assert (H : fetchNotionTasks e fuel = Pending).
  { unfold fetchNotionTasks. rewrite Ht, Hd. simpl.
    rewrite (notion_loop_always_more e Hmore). reflexivity. }
  split; [exact H|]. unfold main. rewrite H. simpl.
  destruct (catch_empty (fetchGithubTasks e)); reflexivity.
Qed.

Lemma notion_never_settles_witness :
  notion_configured More.env_endless /\ always_more More.env_endless
  /\ fetchNotionTasks More.env_endless 1000 = Pending
  /\ main More.env_endless 1000 = Unsettled.
Proof.
  assert (H1 : notion_configured More.env_endless) by (split; reflexivity).
  assert (H2 : always_more More.env_endless) by (intros req; eexists; split; reflexivity).
  split; [exact H1|]. split; [exact H2|].
  exact (notion_never_settles More.env_endless 1000 H1 H2).
Defined.

(** ** Invariants of the payload *)

Lemma map_source_repeat s ts :
  Forall (fun t => Task.source t = s) ts -> map Task.source ts = repeat s (length ts).
Proof. induction 1 as [|t ts Ht _ IH]; simpl; [reflexivity|]. rewrite Ht, IH. reflexivity. Qed.

Lemma github_filter_Forall (P : Task -> Prop) e items :
  (forall it, P (github_task it)) -> Forall P (github_filter e (map github_task items)).
Proof.
  intros H. unfold github_filter. destruct (SUBSET e); [apply Forall_List_filter|];
    apply Forall_map, Forall_forall; auto.
Qed.

Lemma notion_filter_Forall (P : Task -> Prop) e pages :
  (forall pg, P (notion_task pg)) -> Forall P (notion_filter e (map notion_task pages)).
Proof.
  intros H. unfold notion_filter. destruct (SUBSET e); [apply Forall_List_filter|];
    apply Forall_map, Forall_forall; auto.
Qed.

(** X15.  In every payload the code-hosting tasks come first and the
    workspace-database tasks after them. *)
Theorem payload_sources_in_order e fuel p :
  main e fuel = Wrote p ->
  exists n m, map Task.source (tasks p) = repeat "github" n ++ repeat "notion" m.
Proof.
  intros (items & pages & -> & _)%main_wrote. rewrite map_app.
  eexists _, _. f_equal; apply map_source_repeat.
  - apply github_filter_Forall. reflexivity.
  - apply notion_filter_Forall. reflexivity.
Qed.

Lemma payload_sources_in_order_witness :
  main Sample.env_full 1 = Wrote Sample.payload_full
  /\ exists n m,
       map Task.source (tasks Sample.payload_full) = repeat "github" n ++ repeat "notion" m.
Proof.
  assert (H : main Sample.env_full 1 = Wrote Sample.payload_full) by (vm_compute; reflexivity).
  split; [exact H|exact (payload_sources_in_order Sample.env_full 1 Sample.payload_full H)].
Defined.

Lemma subset_has_true allow repo :
  subset_has allow repo = true -> exists r, repo = Some r /\ r ∈ allow.
Proof.
  destruct repo as [r|]; simpl; [|discriminate].
  intros H%bool_decide_eq_true. eauto.
Qed.

(** X16.  With an allow-list configured, every task of the payload either
    has no repo or has a repo that the list contains. *)
Theorem payload_passes_allow_list e fuel p allow :
  main e fuel = Wrote p -> SUBSET e = Some allow -> Forall (passes allow) (tasks p).
Proof.
  intros (items & pages & -> & _)%main_wrote Hallow.
  unfold github_filter, notion_filter. rewrite Hallow. apply Forall_app. split.
  - eapply Forall_impl; [apply Forall_filter_true|]. intros t Ht. right.
    apply subset_has_true, Ht.
  - eapply Forall_impl; [apply Forall_filter_true|]. intros t [Ht|Ht]%orb_prop.
    + left. exact Ht.
    + right. apply subset_has_true, Ht.
Qed.

Lemma payload_passes_allow_list_witness :
  main Sample.env_subset 1 = Wrote More.payload_subset
  /\ SUBSET Sample.env_subset
     = Some (list_to_set (map Str.trim (Str.split "," (SUBSET_RAW Sample.env_subset))))
  /\ Forall (passes (list_to_set (map Str.trim (Str.split "," (SUBSET_RAW Sample.env_subset)))))
       (tasks More.payload_subset).
Proof.
  assert (H1 : main Sample.env_subset 1 = Wrote More.payload_subset)
    by (vm_compute; reflexivity).
  assert (H2 : SUBSET Sample.env_subset
               = Some (list_to_set
                         (map Str.trim (Str.split "," (SUBSET_RAW Sample.env_subset)))))
    by reflexivity.
  split; [exact H1|]. split; [exact H2|].
  exact (payload_passes_allow_list Sample.env_subset 1 More.payload_subset _ H1 H2).
Defined.

Lemma leb_fin x y : Num.leb (Num.Fin x) (Num.Fin y) = true <-> (x <= y)%Q.
Proof.
  unfold Num.leb. simpl. rewrite Qle_alt. destruct (x ?= y)%Q; split; congruence.
Qed.

Lemma add_ge_succ k acc pt :
  Num.leb (Num.of_nat k) acc = true -> Num.leb Num.one pt = true ->
  Num.leb (Num.of_nat (S k)) (Num.add acc pt) = true.
Proof.
  intros Ha Hp.
  destruct acc as [| | |a]; try (cbv in Ha; discriminate);
    destruct pt as [| | |q]; try (cbv in Hp; discriminate); try reflexivity.
  unfold Num.of_nat, Num.of_Z, Num.one in *. apply leb_fin in Ha, Hp. cbn [Num.add].
  apply leb_fin. rewrite Nat2Z.inj_succ, <- Z.add_1_r, inject_Z_plus.
  change (inject_Z 1) with 1%Q in *. lra.
Qed.

Lemma sum_ge_count ts : forall k acc,
  Forall (fun t => Num.leb Num.one (Task.points t) = true) ts ->
  Num.leb (Num.of_nat k) acc = true ->
  Num.leb (Num.of_nat (k + length ts))
    (fold_left (fun s t => Num.add s (Task.points t)) ts acc) = true.
Proof.
  induction ts as [|t ts IH]; intros k acc Hts Hacc; simpl.
  - rewrite Nat.add_0_r. exact Hacc.
  - inversion Hts as [|? ? Ht Hts']; subst.
    replace (k + S (length ts)) with (S k + length ts) by lia.
    apply IH; [exact Hts'|]. apply add_ge_succ; assumption.
Qed.

(** X17.  In every payload [totals.xp] is at least [totals.done]: each
    done task adds at least one point. *)
Theorem xp_at_least_done e fuel p :
  main e fuel = Wrote p ->
  exists n x,
    field "done" (totals p) = Some (VNum (Num.of_nat n))
    /\ field "xp" (totals p) = Some (VNum x)
    /\ Num.leb (Num.of_nat n) x = true.
Proof.
  intros H.
  assert (Hpts : Forall (fun t => Num.leb Num.one (Task.points t) = true) (tasks p)).
  { revert H. apply main_tasks_Forall; [apply github_task_points|apply notion_task_points]. }
  pose proof (main_points_truthy _ _ _ H) as Htr.
  apply main_wrote in H as (_ & _ & _ & -> & _).
  eexists _, _. split; [reflexivity|]. split; [reflexivity|].
  rewrite fold_points_truthy by apply Forall_List_filter, Htr.
  apply (sum_ge_count _ 0 Num.zero); [apply Forall_List_filter, Hpts|reflexivity].
Qed.

Lemma xp_at_least_done_witness :
  main Sample.env_full 1 = Wrote Sample.payload_full
  /\ exists n x,
       field "done" (totals Sample.payload_full) = Some (VNum (Num.of_nat n))
       /\ field "xp" (totals Sample.payload_full) = Some (VNum x)
       /\ Num.leb (Num.of_nat n) x = true.
Proof.
  assert (H : main Sample.env_full 1 = Wrote Sample.payload_full) by (vm_compute; reflexivity).
  split; [exact H|exact (xp_at_least_done Sample.env_full 1 Sample.payload_full H)].
Defined.

(** X18.  For every task of a payload the points are at least 1, there are
    at most six tags, and the progress is between 0 and 1 or is NaN. *)
Theorem payload_task_bounds e fuel p :
  main e fuel = Wrote p ->
  Forall (fun t => Num.leb Num.one (Task.points t) = true
                   /\ length (Task.tags t) <= 6
                   /\ (in_unit_interval (Task.progress t) = true
                       \/ Task.progress t = Num.NaN))
    (tasks p).
Proof. apply task_bounds. Qed.

Lemma payload_task_bounds_witness :
  main Sample.env_full 1 = Wrote Sample.payload_full
  /\ Forall (fun t => Num.leb Num.one (Task.points t) = true
                      /\ length (Task.tags t) <= 6
                      /\ (in_unit_interval (Task.progress t) = true
                          \/ Task.progress t = Num.NaN))
       (tasks Sample.payload_full).
Proof.
  assert (H : main Sample.env_full 1 = Wrote Sample.payload_full) by (vm_compute; reflexivity).
  split; [exact H|exact (payload_task_bounds Sample.env_full 1 Sample.payload_full H)].
Defined.

(** ** Workspace-database records *)

Lemma nonempty_lower s : Str.nonempty (Str.toLowerCase s) = Str.nonempty s.
Proof. destruct s; reflexivity. Qed.

(** X19.  The status of a workspace-database record does not depend on
    the case of the letters of its Status property. *)
Theorem status_ignores_case mk s s' p url :
  mk = PStatus \/ mk = PSelect ->
  Str.toLowerCase s = Str.toLowerCase s' ->
  Task.status (notion_task (page_with_status mk s p url))
  = Task.status (notion_task (page_with_status mk s' p url)).
Proof.
  intros Hmk Hs.
  assert (Hne : Str.nonempty s = Str.nonempty s')
    by (rewrite <- (nonempty_lower s), <- (nonempty_lower s'), Hs; reflexivity).
  assert (Hprop : forall t, prop (<["Status" := mk (Some t)]> p) "Status" = VStr t).
  { intros t. unfold prop. rewrite lookup_insert_eq. destruct Hmk as [->| ->]; reflexivity. }
  assert (Hother : forall t, prop (<["Status" := mk (Some t)]> p) "status" = prop p "status").
  { intros t. unfold prop. rewrite lookup_insert_ne by discriminate. reflexivity. }
  assert (Hor : forall t v, Str.nonempty t = true -> Js.or (VStr t) v = VStr t).
  { intros t v Ht. unfold Js.or. cbn [Js.truthy]. rewrite Ht. reflexivity. }
  cbn [notion_task page_with_status page_props Page.properties Task.status].
  rewrite !Hprop, !Hother.
  destruct (Str.nonempty s) eqn:E.
  - symmetry in Hne. rewrite !(Hor s) by exact E. rewrite !(Hor s') by exact Hne.
    cbn [Js.toString]. rewrite Hs. reflexivity.
  - destruct s; [|discriminate]. destruct s'; [reflexivity|discriminate].
Qed.

Lemma status_ignores_case_witness :
  Str.toLowerCase "DONE" = Str.toLowerCase "done"
  /\ Task.status (notion_task (page_with_status PStatus "DONE" ∅ VUndef)) = "done".
Proof.
  assert (H : Str.toLowerCase "DONE" = Str.toLowerCase "done") by reflexivity.
  split; [exact H|].
  exact (status_ignores_case PStatus "DONE" "done" ∅ VUndef (or_introl eq_refl) H).
Defined.

(** X20.  Of a multi-select Repo only the first option counts: it is the
    repo of the task, and with an allow-list the record is kept exactly
    when that option is empty or in the list, whatever the other options
    are. *)
Theorem multi_select_repo_first e allow r rest p url :
  SUBSET e = Some allow ->
  let t := notion_task (page_with_repos (r :: rest) p url) in
  Task.repo t = Some r
  /\ (notion_filter e [t] = [t] <-> r = "" \/ r ∈ allow)
  /\ (notion_filter e [t] = [] <-> r <> "" /\ r ∉ allow).
Proof.
  intros Hallow t.
  assert (Hrepo : Task.repo t = Some r).
  { unfold t, page_with_repos. cbn [notion_task page_props Page.properties Task.repo].
    unfold prop at 1. rewrite lookup_insert_eq. reflexivity. }
  split; [exact Hrepo|].
  unfold notion_filter. rewrite Hallow. cbn [List.filter]. unfold no_repo. rewrite Hrepo.
  cbn [subset_has].
  assert (Hr : Str.nonempty r = false <-> r = "") by (destruct r; simpl; split; congruence).
  assert (Hr' : Str.nonempty r = true <-> r <> "").
  { rewrite <- Hr. destruct (Str.nonempty r); split; congruence. }
  set (b := negb (Str.nonempty r) || bool_decide (r ∈ allow)).
  assert (Hb : b = true <-> r = "" \/ r ∈ allow).
  { unfold b. rewrite orb_true_iff, negb_true_iff, Hr, bool_decide_eq_true. reflexivity. }
  assert (Hb' : b = false <-> r <> "" /\ r ∉ allow).
  { rewrite <- not_true_iff_false, Hb. tauto. }
  rewrite <- Hb, <- Hb'. destruct b; split; split; congruence.
Qed.

Lemma multi_select_repo_first_witness :
  SUBSET More.env_spaced_subset = Some More.spaced_allow
  /\ Task.repo (notion_task (page_with_repos ["repoC"; "repoA"] ∅ VUndef)) = Some "repoC"
  /\ (notion_filter More.env_spaced_subset
        [notion_task (page_with_repos ["repoC"; "repoA"] ∅ VUndef)] = []
      <-> "repoC" <> "" /\ "repoC" ∉ More.spaced_allow).
Proof.
  assert (H : SUBSET More.env_spaced_subset = Some More.spaced_allow) by reflexivity.
  pose proof (multi_select_repo_first More.env_spaced_subset More.spaced_allow
                "repoC" ["repoA"] ∅ VUndef H) as (H1 & _ & H3).
  split; [exact H|]. split; [exact H1|exact H3].
Defined.

Example multi_select_repo_sample :
  notion_filter More.env_spaced_subset
    [notion_task (page_with_repos ["repoC"; "repoA"] ∅ VUndef)] = [].
Proof. vm_compute. reflexivity. Qed.
